(** * Sparse matrix multiplication as a streaming map/reduce pair

    A shallow embedding of [MatMul/mapper.py] (the key expander) and
    [MatMul/reducer.py] (the grouped joiner), of the word count of
    [WordCount/mapper.py] and [WordCount/reducer.py], and of the part of
    the Python runtime the two scripts rely on: [str.strip], [str.split],
    [str.upper], [int()], [float()], the formatting of integers and floats
    inside f-strings, and insertion-ordered dictionaries.

    Text is modelled as ASCII [string]s, Python integers as [Z], Python
    floats as the primitive binary64 [float]s of the kernel.  The runtime
    functions are described on ASCII text only: beyond it [str.strip],
    [int()] and [float()] know further blanks and digits (U+0085, U+00A0,
    U+2003, ...) and [str.upper] and [str.lower] further letters, which
    the definitions below do not follow.  The theorems on the malformed
    lines of the joiner and on the lines the expander passes over are
    stated for ASCII lines ([Spec.ascii_text]). *)

From Stdlib Require Import ZArith List String Ascii Bool Lia Permutation.
From Stdlib Require Import DecimalString DecimalPos.
From Stdlib Require Import Floats.
Import ListNotations.

Open Scope string_scope.
Open Scope Z_scope.

(* ================================================================= *)
(** ** The Python runtime used by the scripts *)

Module Py.

(** Every failure the two scripts can run into ([int()] or [float()] on
    a malformed field, unpacking a sequence of the wrong length) is a
    [ValueError]; none of them is caught. *)
Inductive result (A : Type) : Type :=
| Ok (a : A)
| ValueError.
Arguments Ok {A} a.
Arguments ValueError {A}.

Definition tab : ascii := "009"%char.

Definition code (c : ascii) : Z := Z.of_nat (nat_of_ascii c).

(** [str.isspace] on one ASCII character: TAB, LF, VT, FF, CR, the four
    separators FS, GS, RS, US, and the blank.  On a character of code 128
    or more the function answers [false], whatever [str.isspace] says of
    the character it stands for; such text is outside the model. *)
Definition isspace (c : ascii) : bool :=
  let n := code c in
  ((9 <=? n) && (n <=? 13)) || ((28 <=? n) && (n <=? 31)) || (n =? 32).

(** The narrower class the number parsers skip ([Py_ISSPACE]). *)
Definition isspace_c (c : ascii) : bool :=
  let n := code c in
  ((9 <=? n) && (n <=? 13)) || (n =? 32).

Definition isdigit (c : ascii) : bool :=
  let n := code c in (48 <=? n) && (n <=? 57).

Definition digit_val (c : ascii) : Z := code c - 48.

Fixpoint lstrip_by (sp : ascii -> bool) (s : string) : string :=
  match s with
  | EmptyString => EmptyString
  | String c s' => if sp c then lstrip_by sp s' else s
  end.

Fixpoint rstrip_by (sp : ascii -> bool) (s : string) : string :=
  match s with
  | EmptyString => EmptyString
  | String c s' =>
      match rstrip_by sp s' with
      | EmptyString => if sp c then EmptyString else String c EmptyString
      | r => String c r
      end
  end.

(** [s.strip()] *)
Definition strip (s : string) : string := rstrip_by isspace (lstrip_by isspace s).

(** [s.split(sep)] for a one-character separator: never empty. *)
Fixpoint split (sep : ascii) (s : string) : list string :=
  match s with
  | EmptyString => [EmptyString]
  | String c s' =>
      if Ascii.eqb c sep then EmptyString :: split sep s'
      else match split sep s' with
           | h :: t => String c h :: t
           | [] => [String c EmptyString]
           end
  end.

(** [s.split(sep, maxsplit)]: at most [maxsplit] cuts, the rest is kept whole. *)
Fixpoint split_max (sep : ascii) (maxsplit : nat) (s : string) : list string :=
  match maxsplit with
  | O => [s]
  | S n =>
      match s with
      | EmptyString => [EmptyString]
      | String c s' =>
          if Ascii.eqb c sep then EmptyString :: split_max sep n s'
          else match split_max sep maxsplit s' with
               | h :: t => String c h :: t
               | [] => [String c EmptyString]
               end
      end
  end.

(** [s.startswith(p)] *)
Fixpoint startswith (s p : string) {struct p} : bool :=
  match p, s with
  | EmptyString, _ => true
  | String a p', String b s' => Ascii.eqb a b && startswith s' p'
  | String _ _, EmptyString => false
  end.

Definition upper_char (c : ascii) : ascii :=
  let n := code c in
  if (97 <=? n) && (n <=? 122) then ascii_of_nat (nat_of_ascii c - 32) else c.

(** [s.upper()] *)
Fixpoint upper (s : string) : string :=
  match s with
  | EmptyString => EmptyString
  | String c s' => String (upper_char c) (upper s')
  end.

(** [range(n)] *)
Definition range (n : Z) : list Z := map Z.of_nat (seq 0 (Z.to_nat n)).

(** *** [int(s)], here [to_int]

    Base ten on ASCII text: blanks around, an optional sign, digits with
    single underscores between them. The interpreter's configurable
    bound on the number of digits is left out. *)

(** digit (["_"] digit)* read from the left, most significant digit first *)
Fixpoint int_digits (acc : Z) (s : string) : option Z :=
  match s with
  | EmptyString => None
  | String c rest =>
      if isdigit c then
        let acc' := 10 * acc + digit_val c in
        match rest with
        | EmptyString => Some acc'
        | String "_"%char rest' => int_digits acc' rest'
        | _ => int_digits acc' rest
        end
      else None
  end.

Definition strip_c (s : string) : string := rstrip_by isspace_c (lstrip_by isspace_c s).

Definition to_int (s : string) : option Z :=
  match strip_c s with
  | String "-"%char r => option_map Z.opp (int_digits 0 r)
  | String "+"%char r => int_digits 0 r
  | t => int_digits 0 t
  end.

(** [str(n)], which is also how an f-string renders an integer *)
Definition str (n : Z) : string := NilZero.string_of_int (Z.to_int n).

(** *** [float(s)], here [to_float]

    A decimal literal with an optional fraction and exponent, or an
    infinity or a NaN by name, rounded to the nearest binary64 value
    with ties to even. *)

(** Underscores are accepted between two digits and nowhere else; they
    are removed before the literal is read. [prev] is the character just
    before [s]. *)
Fixpoint drop_underscores (prev : ascii) (s : string) : option string :=
  match s with
  | EmptyString => if Ascii.eqb prev "_" then None else Some EmptyString
  | String c rest =>
      if Ascii.eqb c "_" then
        if isdigit prev then drop_underscores c rest else None
      else if Ascii.eqb prev "_" && negb (isdigit c) then None
      else option_map (String c) (drop_underscores c rest)
  end.

(** The leading decimal digits of [s]: their value appended to [acc],
    how many there were added to [n], and what follows them. *)
Fixpoint span_digits (acc n : Z) (s : string) : Z * Z * string :=
  match s with
  | EmptyString => (acc, n, s)
  | String c rest =>
      if isdigit c then span_digits (10 * acc + digit_val c) (n + 1) rest
      else (acc, n, s)
  end.

Definition split_sign (s : string) : bool * string :=
  match s with
  | String "-"%char r => (true, r)
  | String "+"%char r => (false, r)
  | _ => (false, s)
  end.

(** The binary64 value nearest to [m * 10 ^ e10] (ties to even), for a
    natural number [m]; out of range gives an infinity, never an error. *)
Definition sf_of_decimal (neg : bool) (m e10 : Z) : spec_float :=
  match m with
  | Zpos p =>
      if 0 <=? e10 then
        binary_round prec emax neg (Z.to_pos (m * 10 ^ e10)) 0
      else
        let '(q, e, l) := SFdiv_core_binary prec emax m 0 (10 ^ (- e10)) 0 in
        binary_round_aux prec emax neg q e l
  | _ => S754_zero neg
  end.

(** An optional exponent part, which must reach the end of the text. *)
Definition exponent_part (s : string) : option Z :=
  match s with
  | EmptyString => Some 0
  | String c r =>
      if Ascii.eqb c "e" || Ascii.eqb c "E" then
        let '(neg, r') := split_sign r in
        match span_digits 0 0 r' with
        | (ev, ne, EmptyString) =>
            if 0 <? ne then Some (if neg then - ev else ev) else None
        | _ => None
        end
      else None
  end.

Definition inf_or_nan (neg : bool) (s : string) : option spec_float :=
  let u := upper s in
  if String.eqb u "INF" || String.eqb u "INFINITY" then Some (S754_infinity neg)
  else if String.eqb u "NAN" then Some S754_nan
  else None.

Definition float_literal (t : string) : option spec_float :=
  let '(neg, r) := split_sign t in
  let '(ip, ni, r1) := span_digits 0 0 r in
  let '(m, nf, r2) :=
    match r1 with
    | String "."%char r' => span_digits ip 0 r'
    | _ => (ip, 0, r1)
    end in
  if ni + nf =? 0 then inf_or_nan neg r
  else option_map (fun e => sf_of_decimal neg m (e - nf)) (exponent_part r2).

Definition to_float (s : string) : option float :=
  match drop_underscores "000"%char s with
  | Some t => option_map SF2Prim (float_literal (strip_c t))
  | None => None
  end.

(** *** [repr(x)] for a float, which is also how an f-string renders it *)

Definition sf_eqb (x y : spec_float) : bool :=
  match x, y with
  | S754_finite s m e, S754_finite s' m' e' =>
      Bool.eqb s s' && Pos.eqb m m' && Z.eqb e e'
  | S754_zero s, S754_zero s' => Bool.eqb s s'
  | S754_infinity s, S754_infinity s' => Bool.eqb s s'
  | S754_nan, S754_nan => true
  | _, _ => false
  end.

(** [m * 2 ^ e / 10 ^ q] as a fraction of two positive integers *)
Definition scaled (m : positive) (e q : Z) : Z * Z :=
  let n0 := if 0 <=? e then Zpos m * 2 ^ e else Zpos m in
  let d0 := if 0 <=? e then 1 else 2 ^ (- e) in
  if 0 <=? q then (n0, d0 * 10 ^ q) else (n0 * 10 ^ (- q), d0).

Definition ge_pow10 (m : positive) (e k : Z) : bool :=
  let '(n, d) := scaled m e k in d <=? n.

(** the [k] with [10 ^ k <= m * 2 ^ e < 10 ^ (k + 1)], from an estimate *)
Fixpoint adjust_log10 (fuel : nat) (m : positive) (e k : Z) : Z :=
  match fuel with
  | O => k
  | S fuel' =>
      if ge_pow10 m e (k + 1) then adjust_log10 fuel' m e (k + 1)
      else if ge_pow10 m e k then k
      else adjust_log10 fuel' m e (k - 1)
  end.

Definition floor_log10 (m : positive) (e : Z) : Z :=
  adjust_log10 8 m e (((Z.log2 (Zpos m) + e) * 30103) / 100000).

(** The shortest decimal [c * 10 ^ q] that reads back as [m * 2 ^ e]:
    with [p] significant digits, the two neighbours of the exact value
    are tried, the nearer one preferred; seventeen digits always do. *)
Fixpoint shortest (fuel : nat) (p : Z) (m : positive) (e k : Z) : Z * Z :=
  let q := k - p + 1 in
  let '(n, d) := scaled m e q in
  let lo := n / d in
  let r := n mod d in
  let ok c := sf_eqb (sf_of_decimal false c q) (S754_finite false m e) in
  let nearest := if (2 * r <? d) || ((2 * r =? d) && Z.even lo) then lo else lo + 1 in
  match fuel with
  | O => (nearest, q)
  | S fuel' =>
      match ok lo, ok (lo + 1) with
      | true, true => (nearest, q)
      | true, false => (lo, q)
      | false, true => (lo + 1, q)
      | false, false => shortest fuel' (p + 1) m e k
      end
  end.

Fixpoint drop_zeros (fuel : nat) (c q : Z) : Z * Z :=
  match fuel with
  | O => (c, q)
  | S fuel' => if c mod 10 =? 0 then drop_zeros fuel' (c / 10) (q + 1) else (c, q)
  end.

Fixpoint zeros (n : nat) : string :=
  match n with
  | O => EmptyString
  | S n' => String "0" (zeros n')
  end.

(** Layout of the digits [ds] with the decimal point after the first
    [decpt] of them: scientific when [decpt <= -4] or [decpt > 16]. *)
Definition layout (ds : string) (decpt : Z) : string :=
  let n := Z.of_nat (String.length ds) in
  if (decpt <=? -4) || (16 <? decpt) then
    let ex := decpt - 1 in
    let mant :=
      match ds with
      | String c EmptyString => ds
      | String c rest => String c (String "." rest)
      | EmptyString => ds
      end in
    let es := str (Z.abs ex) in
    mant ++ "e" ++ (if ex <? 0 then "-" else "+")
         ++ (if Z.abs ex <? 10 then "0" else "") ++ es
  else if decpt <=? 0 then "0." ++ zeros (Z.to_nat (- decpt)) ++ ds
  else if decpt <? n then
    substring 0 (Z.to_nat decpt) ds ++ "."
      ++ substring (Z.to_nat decpt) (String.length ds - Z.to_nat decpt) ds
  else ds ++ zeros (Z.to_nat (decpt - n)) ++ ".0".

Definition repr_sf (x : spec_float) : string :=
  match x with
  | S754_nan => "nan"
  | S754_infinity s => if s then "-inf" else "inf"
  | S754_zero s => if s then "-0.0" else "0.0"
  | S754_finite s m e =>
      let '(c0, q0) := shortest 16 1 m e (floor_log10 m e) in
      let '(c, q) := drop_zeros 17 c0 q0 in
      let ds := str c in
      (if s then "-" else "") ++ layout ds (q + Z.of_nat (String.length ds))
  end.

Definition repr (x : float) : string := repr_sf (Prim2SF x).

(** *** Dictionaries with integer keys and float values

    A Python [dict] keeps its keys in the order of their first insertion,
    and [items()] walks them in that order; floating-point sums depend on
    that order, so the dictionary is an association list, which [iadd]
    keeps free of repeated keys. *)

Definition dict : Type := list (Z * float).

(** [j in d] *)
Fixpoint contains (j : Z) (d : dict) : bool :=
  match d with
  | [] => false
  | (j', _) :: d' => (j' =? j) || contains j d'
  end.

(** [d[j]] on a [defaultdict(float)]: the missing value is [float()], [0.0] *)
Fixpoint getitem (j : Z) (d : dict) : float :=
  match d with
  | [] => 0%float
  | (j', a) :: d' => if j' =? j then a else getitem j d'
  end.

(** [d[j] += v] on a [defaultdict(float)]: an absent key is first given
    the value [0.0], at the end of the order. *)
Fixpoint iadd (d : dict) (j : Z) (v : float) : dict :=
  match d with
  | [] => [(j, (0 + v)%float)]
  | (j', a) :: d' =>
      if j' =? j then (j', (a + v)%float) :: d' else (j', a) :: iadd d' j v
  end.

(** What a run leaves on standard output, and whether it ended with an
    uncaught exception instead of reaching the end of the script. *)
Record outcome : Type := { stdout : list string; crashed : bool }.

End Py.

(* ================================================================= *)
(** ** [MatMul/mapper.py]: the key expander *)

Module Mapper.
Import Py.

Section Configured.

(** The two dimensions read from the environment before the loop starts:
    rows of A and columns of B. *)
Variables MAX_I MAX_K : Z.

(** f"{r},{k_idx}\tA,{c},{v}" *)
Definition line_A (r c : Z) (v : float) (k_idx : Z) : string :=
  str r ++ "," ++ str k_idx ++ String tab ("A," ++ str c ++ "," ++ repr v).

(** f"{i_idx},{c}\tB,{r},{v}" *)
Definition line_B (r c : Z) (v : float) (i_idx : Z) : string :=
  str i_idx ++ "," ++ str c ++ String tab ("B," ++ str r ++ "," ++ repr v).

(** One turn of the loop over [sys.stdin]: the lines printed for [raw],
    or the exception that ends the run. The three numeric fields are
    converted before the name is looked at. *)
Definition body (raw : string) : result (list string) :=
  let line := strip raw in
  if String.eqb line "" || startswith line "#" then Ok []
  else
    match split "," line with
    | [name; r; c; v] =>
        match to_int r, to_int c, to_float v with
        | Some r, Some c, Some v =>
            if String.eqb (upper name) "A" then
              Ok (map (line_A r c v) (range MAX_K))
            else if String.eqb (upper name) "B" then
              Ok (map (line_B r c v) (range MAX_I))
            else Ok []
        | _, _, _ => ValueError
        end
    | _ => Ok []
    end.

End Configured.

Fixpoint run (MAX_I MAX_K : Z) (printed : list string) (input : list string) : outcome :=
  match input with
  | [] => {| stdout := printed; crashed := false |}
  | raw :: rest =>
      match body MAX_I MAX_K raw with
      | Ok out => run MAX_I MAX_K (printed ++ out) rest
      | ValueError => {| stdout := printed; crashed := true |}
      end
  end.

Definition mapper (MAX_I MAX_K : Z) (input : list string) : outcome :=
  run MAX_I MAX_K [] input.

End Mapper.

(* ================================================================= *)
(** ** [MatMul/reducer.py]: the grouped joiner *)

Module Reducer.
Import Py.

(** The module-level variables, and the lines printed so far. *)
Record state : Type := {
  current_key : option (Z * Z);
  Avals : dict;
  Bvals : dict;
  printed : list string
}.

Definition initial : state :=
  {| current_key := None; Avals := []; Bvals := []; printed := [] |}.

(** The loop of [flush]: [for j, a in A.items(): if j in B: total += a * B[j]] *)
Definition dot (A B : dict) : float :=
  fold_left
    (fun total ja =>
       let '(j, a) := ja in
       if contains j B then (total + a * getitem j B)%float else total)
    A 0%float.

(** f"{i} {k} {total}" *)
Definition result_line (i k : Z) (total : float) : string :=
  str i ++ " " ++ str k ++ " " ++ repr total.

(** [flush(key, A, B)]: the lines it prints. A key is [None] or a pair,
    and a pair is never falsy. *)
Definition flush (key : option (Z * Z)) (A B : dict) : list string :=
  match key with
  | None => []
  | Some (i, k) =>
      let total := dot A B in
      if negb (total =? 0)%float then [result_line i k total] else []
  end.

(** A decoded input line: key [(i, k)], source tag, inner index, value. *)
Definition record : Type := (Z * Z * string * Z * float)%type.

(** The four statements that take a stripped, non-empty line apart. *)
Definition decode (line : string) : result record :=
  match split_max tab 1 line with
  | [key_str; payload] =>
      match map to_int (split "," key_str) with
      | [Some i; Some k] =>
          match split_max "," 2 payload with
          | [src; j_str; v_str] =>
              match to_int j_str, to_float v_str with
              | Some j, Some v => Ok (i, k, src, j, v)
              | _, _ => ValueError
              end
          | _ => ValueError
          end
      | _ => ValueError
      end
  | _ => ValueError
  end.

Definition key_eqb (a : option (Z * Z)) (i k : Z) : bool :=
  match a with
  | Some (i', k') => (i' =? i) && (k' =? k)
  | None => false
  end.

(** The rest of the loop body, once the line is decoded. *)
Definition absorb (st : state) (r : record) : state :=
  let '(i, k, src, j, v) := r in
  let st1 :=
    if negb (key_eqb (current_key st) i k) then
      {| current_key := Some (i, k);
         Avals := [];
         Bvals := [];
         printed := printed st ++ flush (current_key st) (Avals st) (Bvals st) |}
    else st in
  if String.eqb src "A" then
    {| current_key := current_key st1;
       Avals := iadd (Avals st1) j v;
       Bvals := Bvals st1;
       printed := printed st1 |}
  else
    {| current_key := current_key st1;
       Avals := Avals st1;
       Bvals := iadd (Bvals st1) j v;
       printed := printed st1 |}.

(** One turn of the loop over [sys.stdin]. *)
Definition body (st : state) (raw : string) : result state :=
  let line := strip raw in
  if String.eqb line "" then Ok st
  else
    match decode line with
    | Ok r => Ok (absorb st r)
    | ValueError => ValueError
    end.

Fixpoint loop (st : state) (input : list string) : state * bool :=
  match input with
  | [] => (st, false)
  | raw :: rest =>
      match body st raw with
      | Ok st' => loop st' rest
      | ValueError => (st, true)
      end
  end.

(** The whole script: the loop, then the last [flush] unless an
    exception ended the run before it. *)
Definition finish (r : state * bool) : outcome :=
  let '(st, failed) := r in
  if failed then {| stdout := printed st; crashed := true |}
  else {| stdout := printed st ++ flush (current_key st) (Avals st) (Bvals st);
          crashed := false |}.

Definition reducer (input : list string) : outcome := finish (loop initial input).

End Reducer.

(* ================================================================= *)
(** ** The vocabulary of the specification *)

Module Spec.
Import Py.

(** *** Output keys and fragments, and the intermediate record
    [I,K<TAB>SRC,J,VALUE] that carries one pair *)

Inductive source : Type := SrcA | SrcB.

Record OutputKey : Type := { key_i : Z; key_k : Z }.

Record Fragment : Type := { frag_source : source; innerIndex : Z; value : float }.

Definition tag (s : source) : string :=
  match s with SrcA => "A" | SrcB => "B" end.

Definition render (p : OutputKey * Fragment) : string :=
  let '(key, f) := p in
  str (key_i key) ++ "," ++ str (key_k key)
    ++ String tab (tag (frag_source f) ++ "," ++ str (innerIndex f) ++ "," ++ repr (value f)).

(** *** The dot product over the shared inner indices *)

(** The entries of [A] whose inner index is also present in [B]. *)
Definition shared (A B : dict) : dict :=
  filter (fun ja => contains (fst ja) B) A.

(** Plain floating-point summation from [0.0], left to right. *)
Definition fsum (l : list float) : float := fold_left PrimFloat.add l 0%float.

Definition dot_shared (A B : dict) : float :=
  fsum (map (fun ja => (snd ja * getitem (fst ja) B)%float) (shared A B)).

(** *** The grouped stream and the pure per-group fold *)

Definition key_of (r : Reducer.record) : Z * Z :=
  let '(i, k, _, _, _) := r in (i, k).

Definition same_key (a b : Z * Z) : bool :=
  (fst a =? fst b) && (snd a =? snd b).

(** The records carried by the input, blank lines left out; [None] when
    some line cannot be decoded. *)
Fixpoint decode_all (input : list string) : option (list Reducer.record) :=
  match input with
  | [] => Some []
  | raw :: rest =>
      if String.eqb (strip raw) "" then decode_all rest
      else match Reducer.decode (strip raw) with
           | Ok r => option_map (cons r) (decode_all rest)
           | ValueError => None
           end
  end.

(** The maximal runs of equal keys, in order. *)
Fixpoint runs (rs : list Reducer.record) : list ((Z * Z) * list Reducer.record) :=
  match rs with
  | [] => []
  | r :: rest =>
      match runs rest with
      | (key, g) :: gs =>
          if same_key (key_of r) key then (key, r :: g) :: gs
          else (key_of r, [r]) :: (key, g) :: gs
      | [] => [(key_of r, [r])]
      end
  end.

(** Every key heads one run only: equal keys are contiguous. *)
Fixpoint distinct_keys (ks : list (Z * Z)) : bool :=
  match ks with
  | [] => true
  | k :: ks' => negb (existsb (same_key k) ks') && distinct_keys ks'
  end.

Definition contiguous (rs : list Reducer.record) : bool :=
  distinct_keys (map fst (runs rs)).

(** The fragments of one source summed per inner index, on top of [d]. *)
Definition sum_A (d : dict) (g : list Reducer.record) : dict :=
  fold_left
    (fun d r => let '(_, _, src, j, v) := r in
                if String.eqb src "A" then iadd d j v else d)
    g d.

Definition sum_B (d : dict) (g : list Reducer.record) : dict :=
  fold_left
    (fun d r => let '(_, _, src, j, v) := r in
                if String.eqb src "A" then d else iadd d j v)
    g d.

Definition flush_group (kg : (Z * Z) * list Reducer.record) : list string :=
  Reducer.flush (Some (fst kg)) (sum_A [] (snd kg)) (sum_B [] (snd kg)).

Definition fold_groups (rs : list Reducer.record) : list string :=
  List.concat (map flush_group (runs rs)).

(** What the fold prints for the runs that are over: all but the last. *)
Definition completed (gs : list ((Z * Z) * list Reducer.record)) : list string :=
  List.concat (map flush_group (removelast gs)).

(** The accumulator of one source after the values [vs] arrived, in that
    order, at inner index [j]. *)
Definition accumulate (d : dict) (j : Z) (vs : list float) : dict :=
  fold_left (fun d v => iadd d j v) vs d.

(** Does the text contain the character? *)
Fixpoint has_char (c : ascii) (s : string) : bool :=
  match s with
  | EmptyString => false
  | String c' s' => Ascii.eqb c' c || has_char c s'
  end.

Fixpoint all_space (s : string) : bool :=
  match s with
  | EmptyString => true
  | String c s' => isspace c && all_space s'
  end.

(** Is the text ASCII, every character of code below 128?  On such text
    [strip], [split], [upper], [to_int] and [to_float] are what Python
    computes. *)
Fixpoint ascii_text (s : string) : bool :=
  match s with
  | EmptyString => true
  | String c s' => (code c <? 128) && ascii_text s'
  end.

(** *** Lines the two scripts cannot use *)

(** A stripped joiner line that is not of the shape [I,K<TAB>SRC,J,VALUE]:
    no tab; a payload that does not split into three fields; a key that
    is not two integers; an inner index that is not an integer; a value
    that is not a float. *)
Inductive Malformed (line : string) : Prop :=
| no_tab :
    has_char tab line = false -> Malformed line
| bad_field_count key payload :
    line = key ++ String tab payload -> has_char tab key = false ->
    List.length (split "," payload) <> 3%nat -> Malformed line
| bad_key key payload :
    line = key ++ String tab payload -> has_char tab key = false ->
    (forall i k, map to_int (split "," key) <> [Some i; Some k]) ->
    Malformed line
| bad_inner_index key payload src j_str v_str :
    line = key ++ String tab payload -> has_char tab key = false ->
    split "," payload = [src; j_str; v_str] -> to_int j_str = None ->
    Malformed line
| bad_value key payload src j_str v_str :
    line = key ++ String tab payload -> has_char tab key = false ->
    split "," payload = [src; j_str; v_str] -> to_float v_str = None ->
    Malformed line.

(** An expander line that is passed over: blank, a comment, not four
    fields, or four fields with numbers in place and a name that is
    neither A nor B in any case. *)
Inductive Skippable (raw : string) : Prop :=
| skip_blank :
    all_space raw = true -> Skippable raw
| skip_comment :
    startswith (strip raw) "#" = true -> Skippable raw
| skip_field_count :
    List.length (split "," (strip raw)) <> 4%nat -> Skippable raw
| skip_unknown_name name r c v i j x :
    split "," (strip raw) = [name; r; c; v] ->
    upper name <> "A" -> upper name <> "B" ->
    to_int r = Some i -> to_int c = Some j -> to_float v = Some x ->
    Skippable raw.

(** *** The worked example of the specification *)

(** A = [[1,2],[3,4]] and B = [[5,6],[7,8]] as input lines. *)
Definition example_entries : list string :=
  ["A,0,0,1"; "A,0,1,2"; "A,1,0,3"; "A,1,1,4";
   "B,0,0,5"; "B,0,1,6"; "B,1,0,7"; "B,1,1,8"].

End Spec.

(* ================================================================= *)
(** ** The stage between the two scripts *)

Module Shuffle.
Import Py.

(** Modelled from the spec: the external shuffle/sort/grouping engine,
    which is not part of the repository. It delivers the expander's
    lines ordered by key, all lines of one key next to each other. Here
    it is a stable sort on the key text, the part of a line before its
    first tab. *)
Definition key_text (line : string) : string :=
  hd "" (split_max tab 1 line).

Definition key_leb (a b : string) : bool :=
  match String.compare (key_text a) (key_text b) with
  | Gt => false
  | _ => true
  end.

Fixpoint insert (x : string) (l : list string) : list string :=
  match l with
  | [] => [x]
  | y :: l' => if key_leb x y then x :: l else y :: insert x l'
  end.

Definition group_by_key (lines : list string) : list string :=
  fold_right insert [] lines.

End Shuffle.

(** Expansion, grouping and join, one after the other. *)
Definition pipeline (MAX_I MAX_K : Z) (input : list string) : Py.outcome :=
  Reducer.reducer
    (Shuffle.group_by_key (Py.stdout (Mapper.mapper MAX_I MAX_K input))).

(* ================================================================= *)
(** ** The worked example, whatever the order inside a group *)

Module Example.
Import Py.

(** What the expander prints for the example. *)
Definition expanded : list string :=
  stdout (Mapper.mapper 2 2 Spec.example_entries).

Definition lines_of_key (key : string) : list string :=
  filter (fun l => String.eqb (Shuffle.key_text l) key) expanded.

Fixpoint insert_all {A : Type} (x : A) (l : list A) : list (list A) :=
  match l with
  | [] => [[x]]
  | y :: l' => (x :: l) :: map (cons y) (insert_all x l')
  end.

(** Every arrangement of a list. *)
Fixpoint perms {A : Type} (l : list A) : list (list A) :=
  match l with
  | [] => [[]]
  | x :: l' => flat_map (insert_all x) (perms l')
  end.

(** The lines [g] decode to at least one record, all of key [key], and
    their group is flushed as the single line [line]. *)
Definition joins_to (key : Z * Z) (line : string) (g : list string) : bool :=
  match Spec.decode_all g with
  | Some (r :: rs) =>
      forallb (fun r' => Spec.same_key (Spec.key_of r') key) (r :: rs)
      && match Spec.flush_group (key, r :: rs) with
         | [l] => String.eqb l line
         | _ => false
         end
  | _ => false
  end.

End Example.

(* ================================================================= *)
(** ** [WordCount/mapper.py] and [WordCount/reducer.py] *)

Module WordCount.
Import Py.

Definition lower_char (c : ascii) : ascii :=
  let n := code c in
  if (65 <=? n) && (n <=? 90) then ascii_of_nat (nat_of_ascii c + 32) else c.

(** [s.lower()] *)
Fixpoint lower (s : string) : string :=
  match s with
  | EmptyString => EmptyString
  | String c s' => String (lower_char c) (lower s')
  end.

(** The class [[A-Za-z0-9']] of [WORD_RE]. *)
Definition word_char (c : ascii) : bool :=
  let n := code c in
  ((65 <=? n) && (n <=? 90)) || ((97 <=? n) && (n <=? 122))
  || ((48 <=? n) && (n <=? 57)) || (n =? 39).

(** [WORD_RE.findall(s)]: the maximal runs of characters of the class,
    from left to right. *)
Fixpoint findall (s : string) : list string :=
  match s with
  | EmptyString => []
  | String c s' =>
      if word_char c then
        match s' with
        | String c' _ =>
            if word_char c' then
              match findall s' with
              | w :: ws => String c w :: ws
              | [] => [String c EmptyString]
              end
            else String c EmptyString :: findall s'
        | EmptyString => [String c EmptyString]
        end
      else findall s'
  end.

Module Mapper.

(** f"{word}\t1" *)
Definition emit (word : string) : string := word ++ String tab "1".

(** One turn of the loop over [sys.stdin]: the lines printed for [raw]. *)
Definition body (raw : string) : list string :=
  let line := lower (strip raw) in
  if String.eqb line "" then [] else map emit (findall line).

(** The whole script; nothing in it can raise. *)
Fixpoint mapper (input : list string) : list string :=
  match input with
  | [] => []
  | raw :: rest => body raw ++ mapper rest
  end.

End Mapper.

Module Reducer.

(** The two module-level variables, and the lines printed so far. *)
Record state : Type := {
  current_word : option string;
  current_count : Z;
  printed : list string
}.

Definition initial : state :=
  {| current_word := None; current_count := 0; printed := [] |}.

(** The two statements under [try]: [None] stands for the [ValueError]
    that the [except] clause turns into [continue]. *)
Definition parse (line : string) : option (string * Z) :=
  match split_max tab 1 line with
  | [word; count_str] =>
      match to_int count_str with
      | Some count => Some (word, count)
      | None => None
      end
  | _ => None
  end.

(** How an f-string shows [current_word]. *)
Definition show_word (w : option string) : string :=
  match w with
  | Some w => w
  | None => "None"
  end.

(** f"{current_word}\t{current_count}" *)
Definition count_line (w : option string) (n : Z) : string :=
  show_word w ++ String tab (str n).

(** [word != current_word] *)
Definition differs (word : string) (cur : option string) : bool :=
  match cur with
  | Some w => negb (String.eqb word w)
  | None => true
  end.

(** The rest of the loop body, once the line is parsed. *)
Definition absorb (st : state) (r : string * Z) : state :=
  let '(word, count) := r in
  let st1 :=
    match current_word st with
    | None => {| current_word := Some word;
                 current_count := current_count st;
                 printed := printed st |}
    | Some _ => st
    end in
  let st2 :=
    if differs word (current_word st1) then
      {| current_word := Some word;
         current_count := 0;
         printed := printed st1
                      ++ [count_line (current_word st1) (current_count st1)] |}
    else st1 in
  {| current_word := current_word st2;
     current_count := current_count st2 + count;
     printed := printed st2 |}.

(** One turn of the loop over [sys.stdin]. *)
Definition body (st : state) (raw : string) : state :=
  let line := strip raw in
  if String.eqb line "" then st
  else
    match parse line with
    | Some r => absorb st r
    | None => st
    end.

Definition loop (st : state) (input : list string) : state :=
  fold_left body input st.

(** The last statement: the active word is printed, if there is one. *)
Definition finish (st : state) : list string :=
  match current_word st with
  | Some _ => printed st ++ [count_line (current_word st) (current_count st)]
  | None => printed st
  end.

Definition reducer (input : list string) : list string :=
  finish (loop initial input).

End Reducer.

(** *** Vocabulary for the properties of the word count *)

(** Every character of the text passes the test. *)
Fixpoint all_chars (p : ascii -> bool) (s : string) : bool :=
  match s with
  | EmptyString => true
  | String c s' => p c && all_chars p s'
  end.

(** Lower-case letters, digits and the apostrophe. *)
Definition token_char (c : ascii) : bool :=
  let n := code c in
  ((97 <=? n) && (n <=? 122)) || ((48 <=? n) && (n <=? 57)) || (n =? 39).

(** The words of the whole input, in order. *)
Definition words (input : list string) : list string :=
  flat_map (fun raw => findall (lower (strip raw))) input.

(** The word and count carried by each line the reducer accepts. *)
Fixpoint parse_all (input : list string) : list (string * Z) :=
  match input with
  | [] => []
  | raw :: rest =>
      if String.eqb (strip raw) "" then parse_all rest
      else match Reducer.parse (strip raw) with
           | Some r => r :: parse_all rest
           | None => parse_all rest
           end
  end.

(** Neighbours with the same word merged, their counts added. *)
Fixpoint compress (rs : list (string * Z)) : list (string * Z) :=
  match rs with
  | [] => []
  | (w, n) :: rest =>
      match compress rest with
      | (w', n') :: gs =>
          if String.eqb w w' then (w', n + n') :: gs
          else (w, n) :: (w', n') :: gs
      | [] => [(w, n)]
      end
  end.

Definition line_of (r : string * Z) : string :=
  Reducer.count_line (Some (fst r)) (snd r).

(** The sum of the counts recorded for one word. *)
Fixpoint total (w : string) (rs : list (string * Z)) : Z :=
  match rs with
  | [] => 0
  | (w', n) :: rest => (if String.eqb w w' then n else 0) + total w rest
  end.

(** A word as the reducer reads it off a stripped line: not empty, no
    blank in front, no tab inside. *)
Definition readable (w : string) : bool :=
  match w with
  | EmptyString => false
  | String c _ => negb (isspace c) && negb (Spec.has_char tab w)
  end.

End WordCount.

(* ================================================================= *)
(** ** Properties *)

Import Py.

(** *** Text helpers *)

Lemma lstrip_all_space (s : string) :
  Spec.all_space s = true -> lstrip_by isspace s = "".
Proof.
  induction s as [|c s IH]; simpl; [reflexivity|].
  intros H. apply andb_prop in H as [Hc Hs].
  rewrite Hc. auto.
Qed.

Lemma strip_all_space (s : string) :
  Spec.all_space s = true -> strip s = "".
Proof.
  intros H. unfold strip. now rewrite lstrip_all_space.
Qed.

Lemma same_key_true (a b : Z * Z) : Spec.same_key a b = true -> a = b.
Proof.
  destruct a as [i k], b as [i' k']. unfold Spec.same_key. simpl.
  intros H. apply andb_prop in H as [H1 H2].
  apply Z.eqb_eq in H1, H2. congruence.
Qed.

Lemma same_key_refl (a : Z * Z) : Spec.same_key a a = true.
Proof.
  destruct a. unfold Spec.same_key. simpl. now rewrite !Z.eqb_refl.
Qed.

Lemma same_key_sym (a b : Z * Z) : Spec.same_key a b = Spec.same_key b a.
Proof.
  destruct a, b. unfold Spec.same_key. simpl.
  now rewrite (Z.eqb_sym z z1), (Z.eqb_sym z0 z2).
Qed.

Lemma key_eqb_same_key (a : Z * Z) (i k : Z) :
  Reducer.key_eqb (Some a) i k = Spec.same_key (i, k) a.
Proof.
  destruct a as [i' k']. unfold Spec.same_key. simpl.
  now rewrite (Z.eqb_sym i' i), (Z.eqb_sym k' k).
Qed.

(** *** The body of [flush] *)

Lemma dot_fold (B : dict) (A : dict) (acc : float) :
  fold_left
    (fun total ja =>
       let '(j, a) := ja in
       if contains j B then (total + a * getitem j B)%float else total)
    A acc
  = fold_left PrimFloat.add
      (map (fun ja => (snd ja * getitem (fst ja) B)%float) (Spec.shared A B)) acc.
Proof.
  revert acc. induction A as [|[j a] A IH]; intros acc; simpl; [reflexivity|].
  destruct (contains j B); simpl; apply IH.
Qed.

Lemma dot_is_dot_shared (A B : dict) : Reducer.dot A B = Spec.dot_shared A B.
Proof. apply dot_fold. Qed.

(** C1: [flush] adds up [A[j] * B[j]] over the inner indices present in
    both accumulators, from [0.0] and in the order of [A], and prints the
    line for [(i, k, total)] exactly when [total != 0.0]; with no shared
    index, or a total that compares equal to zero, it prints nothing. *)
Theorem C1_flush_emits_nonzero_dot_product (i k : Z) (A B : dict) :
  Reducer.flush (Some (i, k)) A B =
    (if (Spec.dot_shared A B =? 0)%float then []
     else [Reducer.result_line i k (Spec.dot_shared A B)])
  /\ (Reducer.flush (Some (i, k)) A B = [Reducer.result_line i k (Spec.dot_shared A B)]
      <-> (Spec.dot_shared A B =? 0)%float = false)
  /\ (Reducer.flush (Some (i, k)) A B = []
      <-> (Spec.dot_shared A B =? 0)%float = true)
  /\ (Spec.shared A B = [] -> Reducer.flush (Some (i, k)) A B = []).
Proof.
  assert (E : Reducer.flush (Some (i, k)) A B =
    (if (Spec.dot_shared A B =? 0)%float then []
     else [Reducer.result_line i k (Spec.dot_shared A B)])).
  { unfold Reducer.flush. rewrite dot_is_dot_shared.
    now destruct (Spec.dot_shared A B =? 0)%float. }
  split; [exact E|]. rewrite E.
  repeat split.
  - destruct (Spec.dot_shared A B =? 0)%float; [discriminate|reflexivity].
  - intros ->. reflexivity.
  - destruct (Spec.dot_shared A B =? 0)%float; [reflexivity|discriminate].
  - intros ->. reflexivity.
  - intros HS. unfold Spec.dot_shared. rewrite HS. reflexivity.
Qed.

(** *** The loop of the joiner *)

Lemma loop_app (pre post : list string) (st : Reducer.state) :
  Reducer.loop st (pre ++ post) =
    (if snd (Reducer.loop st pre) then Reducer.loop st pre
     else Reducer.loop (fst (Reducer.loop st pre)) post).
Proof.
  revert st. induction pre as [|raw pre IH]; intros st; simpl; [reflexivity|].
  destruct (Reducer.body st raw); [apply IH|reflexivity].
Qed.

Lemma body_blank (st : Reducer.state) (raw : string) :
  strip raw = "" -> Reducer.body st raw = Ok st.
Proof. intros H. unfold Reducer.body. now rewrite H. Qed.

Lemma body_decoded (st : Reducer.state) (raw : string) (r : Reducer.record) :
  strip raw <> "" -> Reducer.decode (strip raw) = Ok r ->
  Reducer.body st raw = Ok (Reducer.absorb st r).
Proof.
  intros Hne Hd. unfold Reducer.body.
  destruct (String.eqb_spec (strip raw) ""); [contradiction|].
  now rewrite Hd.
Qed.

Lemma body_undecoded (st : Reducer.state) (raw : string) :
  strip raw <> "" -> Reducer.decode (strip raw) = ValueError ->
  Reducer.body st raw = ValueError.
Proof.
  intros Hne Hd. unfold Reducer.body.
  destruct (String.eqb_spec (strip raw) ""); [contradiction|].
  now rewrite Hd.
Qed.

(** C10: a line that is empty or holds only whitespace strips to the
    empty text and is skipped before anything is split or converted; the
    key and both accumulators stay as they were and the run goes on with
    the next line. *)
Theorem C10_blank_line_skipped
  (st : Reducer.state) (raw : string) (rest : list string) :
  Spec.all_space raw = true ->
  strip raw = ""
  /\ Reducer.body st raw = Ok st
  /\ Reducer.loop st (raw :: rest) = Reducer.loop st rest
  /\ (forall pre post,
        Reducer.reducer (pre ++ raw :: post) = Reducer.reducer (pre ++ post)).
Proof.
  intros H. pose proof (strip_all_space raw H) as Hs.
  repeat split; trivial.
  - now apply body_blank.
  - simpl. now rewrite body_blank.
  - intros pre post. unfold Reducer.reducer.
    rewrite !loop_app. simpl. now rewrite body_blank.
Qed.

Lemma C10_blank_line_skipped_witness :
  Reducer.loop Reducer.initial ["  " ++ String tab " "; "0,0" ++ String tab "A,0,2"]
  = Reducer.loop Reducer.initial ["0,0" ++ String tab "A,0,2"].
Proof.
  apply (C10_blank_line_skipped Reducer.initial ("  " ++ String tab " ")
           ["0,0" ++ String tab "A,0,2"]).
  reflexivity.
Defined.

(** *** Accumulating into a dictionary *)

Lemma contains_iadd_same (d : dict) (j : Z) (v : float) :
  contains j (iadd d j v) = true.
Proof.
  induction d as [|[j' a] d IH]; simpl.
  - now rewrite Z.eqb_refl.
  - destruct (j' =? j) eqn:E; simpl; rewrite E; [reflexivity|exact IH].
Qed.

Lemma getitem_iadd_same (d : dict) (j : Z) (v : float) :
  getitem j (iadd d j v) = (getitem j d + v)%float.
Proof.
  induction d as [|[j' a] d IH]; simpl.
  - now rewrite Z.eqb_refl.
  - destruct (j' =? j) eqn:E; simpl; rewrite E; [reflexivity|exact IH].
Qed.

Lemma contains_iadd_other (d : dict) (j j' : Z) (v : float) :
  j' <> j -> contains j' (iadd d j v) = contains j' d.
Proof.
  intros Hne. induction d as [|[j0 a] d IH]; simpl.
  - destruct (j =? j') eqn:E; [apply Z.eqb_eq in E; congruence|reflexivity].
  - destruct (j0 =? j) eqn:E; simpl; [reflexivity|now rewrite IH].
Qed.

Lemma getitem_iadd_other (d : dict) (j j' : Z) (v : float) :
  j' <> j -> getitem j' (iadd d j v) = getitem j' d.
Proof.
  intros Hne. induction d as [|[j0 a] d IH]; simpl.
  - destruct (j =? j') eqn:E; [apply Z.eqb_eq in E; congruence|reflexivity].
  - destruct (j0 =? j) eqn:E; simpl; [|now rewrite IH].
    apply Z.eqb_eq in E. subst j0.
    destruct (j =? j') eqn:E'; [apply Z.eqb_eq in E'; congruence|reflexivity].
Qed.

(** C9: a decoded fragment whose tag is anything but the text [A]
    (a lower-case [a], an unknown tag, the empty tag) is added to the B
    accumulator at its inner index, after the usual handling of the key;
    the A accumulator is left alone and the line is never dropped. *)
Theorem C9_other_tags_go_to_B
  (st : Reducer.state) (raw : string) (i k j : Z) (src : string) (v : float) :
  strip raw <> "" ->
  Reducer.decode (strip raw) = Ok (i, k, src, j, v) ->
  src <> "A" ->
  exists st',
    Reducer.body st raw = Ok st'
    /\ Reducer.current_key st' = Some (i, k)
    /\ Reducer.Avals st' =
         (if Reducer.key_eqb (Reducer.current_key st) i k then Reducer.Avals st else [])
    /\ Reducer.Bvals st' =
         iadd (if Reducer.key_eqb (Reducer.current_key st) i k then Reducer.Bvals st else []) j v
    /\ contains j (Reducer.Bvals st') = true
    /\ getitem j (Reducer.Bvals st') =
         (getitem j (if Reducer.key_eqb (Reducer.current_key st) i k
                     then Reducer.Bvals st else []) + v)%float.
Proof.
  intros Hne Hd Hsrc.
  exists (Reducer.absorb st (i, k, src, j, v)).
  split; [now apply body_decoded|].
  assert (E : String.eqb src "A" = false).
  { destruct (String.eqb_spec src "A"); [contradiction|reflexivity]. }
  unfold Reducer.absorb. rewrite E.
  destruct (Reducer.key_eqb (Reducer.current_key st) i k) eqn:K; simpl.
  - repeat split; auto using contains_iadd_same, getitem_iadd_same.
    destruct (Reducer.current_key st) as [[i' k']|]; simpl in K; [|discriminate].
    apply andb_prop in K as [K1 K2]. apply Z.eqb_eq in K1, K2. congruence.
  - rewrite Z.eqb_refl. repeat split; reflexivity.
Qed.

Lemma C9_other_tags_go_to_B_witness :
  exists st',
    Reducer.body Reducer.initial ("3,4" ++ String tab "a,7,2.5") = Ok st'
    /\ Reducer.current_key st' = Some (3, 4)
    /\ Reducer.Avals st' = []
    /\ Reducer.Bvals st' = iadd [] 7 2.5%float
    /\ contains 7 (Reducer.Bvals st') = true
    /\ getitem 7 (Reducer.Bvals st') = (0 + 2.5)%float.
Proof.
  apply (C9_other_tags_go_to_B Reducer.initial ("3,4" ++ String tab "a,7,2.5")
           3 4 7 "a" 2.5%float).
  - vm_compute. discriminate.
  - vm_compute. reflexivity.
  - discriminate.
Defined.

(** *** The streaming loop against the fold over runs *)

Lemma loop_decode_all (input : list string) :
  forall (rs : list Reducer.record) (st : Reducer.state),
  Spec.decode_all input = Some rs ->
  Reducer.loop st input = (fold_left Reducer.absorb rs st, false).
Proof.
  induction input as [|raw input IH]; intros rs st H; simpl in *.
  - injection H as <-. reflexivity.
  - unfold Reducer.body.
    destruct (String.eqb (strip raw) ""); [now apply IH|].
    destruct (Reducer.decode (strip raw)) as [r|]; [|discriminate].
    destruct (Spec.decode_all input) as [rs'|]; [|discriminate].
    injection H as <-. simpl. now apply IH.
Qed.

Lemma sum_A_cons (d : dict) (i k j : Z) (src : string) (v : float) g :
  Spec.sum_A d ((i, k, src, j, v) :: g) =
  Spec.sum_A (if String.eqb src "A" then iadd d j v else d) g.
Proof. reflexivity. Qed.

Lemma sum_B_cons (d : dict) (i k j : Z) (src : string) (v : float) g :
  Spec.sum_B d ((i, k, src, j, v) :: g) =
  Spec.sum_B (if String.eqb src "A" then d else iadd d j v) g.
Proof. reflexivity. Qed.

Lemma absorb_same_key cur A B P i k src j v :
  Reducer.key_eqb cur i k = true ->
  Reducer.absorb
    {| Reducer.current_key := cur; Reducer.Avals := A;
       Reducer.Bvals := B; Reducer.printed := P |} (i, k, src, j, v)
  = {| Reducer.current_key := cur;
       Reducer.Avals := if String.eqb src "A" then iadd A j v else A;
       Reducer.Bvals := if String.eqb src "A" then B else iadd B j v;
       Reducer.printed := P |}.
Proof.
  intros K. unfold Reducer.absorb. cbn. rewrite K. cbn.
  now destruct (String.eqb src "A").
Qed.

Lemma absorb_new_key cur A B P i k src j v :
  Reducer.key_eqb cur i k = false ->
  Reducer.absorb
    {| Reducer.current_key := cur; Reducer.Avals := A;
       Reducer.Bvals := B; Reducer.printed := P |} (i, k, src, j, v)
  = {| Reducer.current_key := Some (i, k);
       Reducer.Avals := if String.eqb src "A" then iadd [] j v else [];
       Reducer.Bvals := if String.eqb src "A" then [] else iadd [] j v;
       Reducer.printed := P ++ Reducer.flush cur A B |}.
Proof.
  intros K. unfold Reducer.absorb. cbn -[iadd]. rewrite K. cbn -[iadd].
  now destruct (String.eqb src "A").
Qed.

Lemma key_eqb_true cur i k : Reducer.key_eqb cur i k = true -> cur = Some (i, k).
Proof.
  destruct cur as [[i' k']|]; simpl; [|discriminate].
  intros K. apply andb_prop in K as [K1 K2]. apply Z.eqb_eq in K1, K2. congruence.
Qed.

Lemma absorb_all_output (rs : list Reducer.record) :
  forall cur A B P,
  stdout (Reducer.finish
    (fold_left Reducer.absorb rs
       {| Reducer.current_key := cur; Reducer.Avals := A;
          Reducer.Bvals := B; Reducer.printed := P |}, false))
  = (P ++ match Spec.runs rs with
          | [] => Reducer.flush cur A B
          | (key, g) :: gs =>
              if Reducer.key_eqb cur (fst key) (snd key) then
                Reducer.flush cur (Spec.sum_A A g) (Spec.sum_B B g)
                  ++ List.concat (map Spec.flush_group gs)
              else
                Reducer.flush cur A B
                  ++ List.concat (map Spec.flush_group ((key, g) :: gs))
          end)%list.
Proof.
  induction rs as [|[[[[i k] src] j] v] rs IH]; intros cur A B P.
  - reflexivity.
  - cbn [fold_left Spec.runs Spec.key_of].
    destruct (Reducer.key_eqb cur i k) eqn:K.
    + rewrite absorb_same_key by exact K. rewrite IH. f_equal.
      apply key_eqb_true in K. subst cur.
      destruct (Spec.runs rs) as [|[key g] gs].
      * cbn [fst snd]. rewrite key_eqb_same_key, same_key_refl.
        cbn. now rewrite app_nil_r.
      * destruct (Spec.same_key (i, k) key) eqn:Q.
        -- apply same_key_true in Q. subst key. cbn [fst snd].
           rewrite key_eqb_same_key, same_key_refl.
           now rewrite sum_A_cons, sum_B_cons.
        -- destruct key as [i' k']. cbn [fst snd].
           rewrite !key_eqb_same_key, same_key_refl, same_key_sym, Q.
           reflexivity.
    + rewrite absorb_new_key by exact K. rewrite IH, <- app_assoc. f_equal.
      destruct (Spec.runs rs) as [|[key g] gs].
      * cbn [fst snd]. rewrite K. cbn. now rewrite app_nil_r.
      * destruct (Spec.same_key (i, k) key) eqn:Q.
        -- apply same_key_true in Q. subst key. cbn [fst snd].
           rewrite key_eqb_same_key, same_key_refl, K.
           reflexivity.
        -- destruct key as [i' k']. cbn [fst snd].
           rewrite key_eqb_same_key, same_key_sym, Q, K.
           reflexivity.
Qed.

Lemma absorb_all_initial (rs : list Reducer.record) :
  stdout (Reducer.finish (fold_left Reducer.absorb rs Reducer.initial, false))
  = Spec.fold_groups rs.
Proof.
  unfold Reducer.initial. rewrite absorb_all_output.
  unfold Spec.fold_groups.
  destruct (Spec.runs rs) as [|[key g] gs]; reflexivity.
Qed.

Lemma completed_cons kg (gs : list ((Z * Z) * list Reducer.record)) :
  Spec.completed (kg :: gs) =
  match gs with
  | [] => []
  | _ => (Spec.flush_group kg ++ Spec.completed gs)%list
  end.
Proof. destruct gs; reflexivity. Qed.

(** What the loop alone has printed, from any state of the joiner: the
    active key is flushed when the first run does not continue it, and
    every later run but the last is flushed in turn. *)
Lemma absorb_all_printed (rs : list Reducer.record) :
  forall cur A B P,
  Reducer.printed
    (fold_left Reducer.absorb rs
       {| Reducer.current_key := cur; Reducer.Avals := A;
          Reducer.Bvals := B; Reducer.printed := P |})
  = (P ++ match Spec.runs rs with
          | [] => []
          | (key, g) :: gs =>
              if Reducer.key_eqb cur (fst key) (snd key) then
                match gs with
                | [] => []
                | _ => Reducer.flush cur (Spec.sum_A A g) (Spec.sum_B B g)
                         ++ Spec.completed gs
                end
              else Reducer.flush cur A B ++ Spec.completed ((key, g) :: gs)
          end)%list.
Proof.
  induction rs as [|[[[[i k] src] j] v] rs IH]; intros cur A B P.
  - cbn. now rewrite app_nil_r.
  - cbn [fold_left Spec.runs Spec.key_of].
    destruct (Reducer.key_eqb cur i k) eqn:K.
    + rewrite absorb_same_key by exact K. rewrite IH. f_equal.
      apply key_eqb_true in K. subst cur.
      destruct (Spec.runs rs) as [|[key g] gs].
      * cbn [fst snd]. now rewrite key_eqb_same_key, same_key_refl.
      * destruct (Spec.same_key (i, k) key) eqn:Q.
        -- apply same_key_true in Q. subst key. cbn [fst snd].
           now rewrite key_eqb_same_key, same_key_refl.
        -- destruct key as [i' k']. cbn [fst snd].
           rewrite !key_eqb_same_key, same_key_refl, same_key_sym, Q.
           reflexivity.
    + rewrite absorb_new_key by exact K. rewrite IH, <- app_assoc. f_equal.
      destruct (Spec.runs rs) as [|[key g] gs].
      * cbn [fst snd]. rewrite K. reflexivity.
      * destruct (Spec.same_key (i, k) key) eqn:Q.
        -- apply same_key_true in Q. subst key. cbn [fst snd].
           rewrite key_eqb_same_key, same_key_refl, K, completed_cons.
           destruct gs; reflexivity.
        -- destruct key as [i' k']. cbn [fst snd].
           rewrite key_eqb_same_key, same_key_sym, Q, K.
           reflexivity.
Qed.

Lemma absorb_all_printed_initial (rs : list Reducer.record) :
  Reducer.printed (fold_left Reducer.absorb rs Reducer.initial)
  = Spec.completed (Spec.runs rs).
Proof.
  unfold Reducer.initial. rewrite absorb_all_printed.
  destruct (Spec.runs rs) as [|[key g] gs]; reflexivity.
Qed.

(** *** Runs of a grouped stream *)

Lemma runs_concat (rs : list Reducer.record) :
  List.concat (map snd (Spec.runs rs)) = rs.
Proof.
  induction rs as [|r rs IH]; [reflexivity|].
  cbn [Spec.runs]. destruct (Spec.runs rs) as [|[key g] gs].
  - simpl in IH. subst rs. reflexivity.
  - destruct (Spec.same_key (Spec.key_of r) key); cbn in *; now rewrite IH.
Qed.

Lemma runs_keyed (rs : list Reducer.record) :
  Forall (fun kg => Forall (fun r => Spec.key_of r = fst kg) (snd kg))
         (Spec.runs rs).
Proof.
  induction rs as [|r rs IH]; [constructor|].
  cbn [Spec.runs]. destruct (Spec.runs rs) as [|[key g] gs].
  - repeat constructor.
  - destruct (Spec.same_key (Spec.key_of r) key) eqn:E.
    + apply same_key_true in E. inversion IH as [|? ? Hg Hgs]; subst.
      constructor; [|assumption]. constructor; [reflexivity|assumption].
    + constructor; [|exact IH]. repeat constructor.
Qed.

Lemma filter_keyed (key key' : Z * Z) (g : list Reducer.record) :
  Forall (fun r => Spec.key_of r = key') g ->
  filter (fun r => Spec.same_key (Spec.key_of r) key) g =
  if Spec.same_key key' key then g else [].
Proof.
  induction 1 as [|r g Hr _ IH]; simpl.
  - now destruct (Spec.same_key key' key).
  - rewrite Hr, IH. now destruct (Spec.same_key key' key).
Qed.

Lemma filter_other_groups (key : Z * Z)
  (gs : list ((Z * Z) * list Reducer.record)) :
  Forall (fun kg => Forall (fun r => Spec.key_of r = fst kg) (snd kg)) gs ->
  existsb (Spec.same_key key) (map fst gs) = false ->
  filter (fun r => Spec.same_key (Spec.key_of r) key)
         (List.concat (map snd gs)) = [].
Proof.
  induction 1 as [|[k0 g0] gs H0 _ IH]; [reflexivity|].
  cbn [map fst snd existsb List.concat]. intros E.
  apply orb_false_elim in E as [E0 E].
  rewrite filter_app, (filter_keyed key k0 g0 H0), same_key_sym, E0.
  now apply IH.
Qed.

Lemma group_complete (gs : list ((Z * Z) * list Reducer.record)) :
  Forall (fun kg => Forall (fun r => Spec.key_of r = fst kg) (snd kg)) gs ->
  Spec.distinct_keys (map fst gs) = true ->
  forall key g, In (key, g) gs ->
  filter (fun r => Spec.same_key (Spec.key_of r) key)
         (List.concat (map snd gs)) = g.
Proof.
  induction 1 as [|[k0 g0] gs H0 Hgs IH]; [contradiction|].
  cbn [map fst snd Spec.distinct_keys List.concat]. intros D key g HIn.
  apply andb_prop in D as [D0 D]. apply negb_true_iff in D0.
  rewrite filter_app, (filter_keyed key k0 g0 H0).
  destruct HIn as [E|HIn].
  - injection E as -> ->.
    rewrite same_key_refl, (filter_other_groups key gs Hgs D0).
    apply app_nil_r.
  - assert (N : Spec.same_key k0 key = false).
    { destruct (Spec.same_key k0 key) eqn:Q; [|reflexivity].
      apply same_key_true in Q. subst k0.
      assert (X : existsb (Spec.same_key key) (map fst gs) = true).
      { apply existsb_exists. exists key. split; [|apply same_key_refl].
        apply in_map_iff. now exists (key, g). }
      congruence. }
    rewrite N. now apply IH.
Qed.

Lemma reducer_decoded (input : list string) (rs : list Reducer.record) :
  Spec.decode_all input = Some rs ->
  Reducer.reducer input = {| stdout := Spec.fold_groups rs; crashed := false |}.
Proof.
  intros Hd. unfold Reducer.reducer. rewrite (loop_decode_all input rs _ Hd).
  rewrite <- absorb_all_initial. reflexivity.
Qed.

(** C3: on a grouped input whose lines all decode (blank ones aside)
    the streaming loop prints what the pure fold over the maximal runs
    of equal keys prints, one [flush] per run on the sums of its A and B
    fragments, the last run included once; equal keys being contiguous,
    a run holds every record of its key; a record with a new key has
    the previous key flushed before it starts from empty accumulators;
    and with no record at all nothing is printed. *)
Theorem C3_streaming_join_is_fold_over_runs
  (input : list string) (rs : list Reducer.record) :
  Spec.decode_all input = Some rs ->
  Spec.contiguous rs = true ->
  Reducer.reducer input = {| stdout := Spec.fold_groups rs; crashed := false |}
  /\ (forall key g, In (key, g) (Spec.runs rs) ->
        g = filter (fun r => Spec.same_key (Spec.key_of r) key) rs)
  /\ (rs = [] -> stdout (Reducer.reducer input) = [])
  /\ (forall st i k src j v,
        Reducer.key_eqb (Reducer.current_key st) i k = false ->
        let st' := Reducer.absorb st (i, k, src, j, v) in
        Reducer.printed st' =
          (Reducer.printed st
             ++ Reducer.flush (Reducer.current_key st) (Reducer.Avals st) (Reducer.Bvals st))%list
        /\ Reducer.current_key st' = Some (i, k)
        /\ Reducer.Avals st' = Spec.sum_A [] [(i, k, src, j, v)]
        /\ Reducer.Bvals st' = Spec.sum_B [] [(i, k, src, j, v)]).
Proof.
  intros Hd Hc.
  pose proof (reducer_decoded input rs Hd) as E.
  split; [exact E|]. split; [|split].
  - intros key g HIn. symmetry.
    rewrite <- (runs_concat rs) at 1.
    now apply group_complete; [apply runs_keyed| |].
  - intros ->. now rewrite E.
  - intros [cur A B P] i k src j v K. cbn [Reducer.current_key] in K.
    cbv zeta. rewrite absorb_new_key by exact K.
    cbn. now destruct (String.eqb src "A").
Qed.

Lemma C3_streaming_join_is_fold_over_runs_witness :
  Reducer.reducer
    ["0,0" ++ String tab "A,0,2"; "0,0" ++ String tab "B,0,3"; "";
     "0,1" ++ String tab "A,1,4"; "0,1" ++ String tab "B,1,0.5"]
  = {| stdout :=
         Spec.fold_groups
           [(0, 0, "A", 0, 2%float); (0, 0, "B", 0, 3%float);
            (0, 1, "A", 1, 4%float); (0, 1, "B", 1, 0.5%float)];
       crashed := false |}.
Proof.
  apply (C3_streaming_join_is_fold_over_runs
           ["0,0" ++ String tab "A,0,2"; "0,0" ++ String tab "B,0,3"; "";
            "0,1" ++ String tab "A,1,4"; "0,1" ++ String tab "B,1,0.5"]
           [(0, 0, "A", 0, 2%float); (0, 0, "B", 0, 3%float);
            (0, 1, "A", 1, 4%float); (0, 1, "B", 1, 0.5%float)]).
  - vm_compute. reflexivity.
  - vm_compute. reflexivity.
Defined.

(** *** Splitting *)

Lemma split_nonempty (sep : ascii) (s : string) : split sep s <> [].
Proof.
  destruct s as [|c s]; simpl; [discriminate|].
  destruct (Ascii.eqb c sep); [discriminate|].
  destruct (split sep s); discriminate.
Qed.

Lemma split_no_sep (sep : ascii) (s : string) :
  Spec.has_char sep s = false -> split sep s = [s].
Proof.
  induction s as [|c s IH]; simpl; [reflexivity|].
  intros H. apply orb_false_elim in H as [Hc Hs].
  rewrite Hc, (IH Hs). reflexivity.
Qed.

Lemma split_single (sep : ascii) (s h : string) :
  split sep s = [h] -> h = s /\ Spec.has_char sep s = false.
Proof.
  revert h. induction s as [|c s IH]; simpl; intros h H.
  - injection H as <-. auto.
  - destruct (Ascii.eqb c sep) eqn:E.
    + injection H as _ H. now apply split_nonempty in H.
    + destruct (split sep s) as [|h' t] eqn:S; [now apply split_nonempty in S|].
      injection H as <- ->. destruct (IH h' eq_refl) as [-> Hs]. auto.
Qed.

Lemma split_max_0 (sep : ascii) (s : string) : split_max sep 0 s = [s].
Proof. now destruct s. Qed.

Lemma split_max_no_sep (sep : ascii) (n : nat) (s : string) :
  Spec.has_char sep s = false -> split_max sep n s = [s].
Proof.
  destruct n as [|n]; [intros _; apply split_max_0|].
  induction s as [|c s IH]; simpl; [reflexivity|].
  intros H. apply orb_false_elim in H as [Hc Hs].
  rewrite Hc. simpl in IH. rewrite (IH Hs). reflexivity.
Qed.

Lemma split_max_app (sep : ascii) (n : nat) (a b : string) :
  Spec.has_char sep a = false ->
  split_max sep (S n) (a ++ String sep b) = a :: split_max sep n b.
Proof.
  induction a as [|c a IH]; intros H.
  - cbn. now rewrite Ascii.eqb_refl.
  - cbn in H. apply orb_false_elim in H as [Hc Ha].
    cbn [append split_max]. rewrite Hc. cbn [split_max] in IH.
    rewrite (IH Ha). reflexivity.
Qed.

Lemma split_max_short (sep : ascii) (s : string) :
  forall n, (List.length (split sep s) <= S n)%nat ->
  split_max sep n s = split sep s.
Proof.
  induction s as [|c s IH]; intros n H.
  - destruct n; reflexivity.
  - destruct n as [|n]; cbn [split split_max] in *.
    + destruct (Ascii.eqb c sep).
      * cbn in H. pose proof (split_nonempty sep s).
        destruct (split sep s); [contradiction|simpl in H; lia].
      * destruct (split sep s) as [|h t] eqn:S; [now apply split_nonempty in S|].
        destruct t; [|simpl in H; lia].
        apply split_single in S as [-> _]. reflexivity.
    + destruct (Ascii.eqb c sep).
      * cbn in H. f_equal. apply IH. lia.
      * rewrite IH; [reflexivity|].
        destruct (split sep s); simpl in *; lia.
Qed.

Lemma split_max_long (sep : ascii) (s : string) :
  forall n, (S n < List.length (split sep s))%nat ->
  exists l r, split_max sep n s = (l ++ [r])%list
              /\ List.length l = n /\ Spec.has_char sep r = true.
Proof.
  induction s as [|c s IH]; intros n H.
  - simpl in H. lia.
  - destruct n as [|n].
    + exists [], (String c s). repeat split.
      destruct (Spec.has_char sep (String c s)) eqn:E; [reflexivity|].
      rewrite (split_no_sep _ _ E) in H. simpl in H. lia.
    + cbn [split split_max] in *. destruct (Ascii.eqb c sep).
      * cbn in H. destruct (IH n) as (l & r & E & L & R); [lia|].
        exists ("" :: l), r. rewrite E. repeat split; simpl; auto.
      * destruct (IH (S n)) as (l & r & E & L & R).
        { destruct (split sep s); simpl in *; lia. }
        rewrite E. destruct l as [|h t]; [discriminate|].
        exists (String c h :: t), r. repeat split; auto.
Qed.

(** *** A comma never belongs to a float literal *)

Lemma has_comma_lstrip (sp : ascii -> bool) (s : string) :
  sp ","%char = false ->
  Spec.has_char "," s = true -> Spec.has_char "," (lstrip_by sp s) = true.
Proof.
  intros Hsp. induction s as [|c s IH]; simpl; [discriminate|].
  intros H. destruct (sp c) eqn:E; [|exact H].
  destruct (Ascii.eqb_spec c ","); [congruence|]. simpl in H. auto.
Qed.

Lemma has_comma_rstrip (sp : ascii -> bool) (s : string) :
  sp ","%char = false ->
  Spec.has_char "," s = true -> Spec.has_char "," (rstrip_by sp s) = true.
Proof.
  intros Hsp. induction s as [|c s IH]; simpl; [discriminate|].
  intros H. destruct (Ascii.eqb_spec c ",") as [->|Hc].
  - rewrite Hsp. destruct (rstrip_by sp s); simpl; reflexivity.
  - simpl in H. specialize (IH H).
    destruct (rstrip_by sp s) as [|c' r]; [discriminate|].
    cbn [Spec.has_char] in *. rewrite IH. apply orb_true_r.
Qed.

Lemma has_comma_drop_underscores (s : string) :
  forall prev t,
  drop_underscores prev s = Some t ->
  Spec.has_char "," s = true -> Spec.has_char "," t = true.
Proof.
  induction s as [|c s IH]; intros prev t H Hc; simpl in *; [discriminate|].
  destruct (Ascii.eqb_spec c "_") as [->|Hu].
  - destruct (isdigit prev); [|discriminate]. simpl in Hc. eauto.
  - destruct (Ascii.eqb prev "_" && negb (isdigit c)); [discriminate|].
    destruct (drop_underscores c s) as [t'|] eqn:D; [|discriminate].
    injection H as <-. simpl.
    destruct (Ascii.eqb c ","); [reflexivity|]. simpl in *. eauto.
Qed.

Lemma has_comma_span_digits (s : string) :
  forall acc n a n' r,
  span_digits acc n s = (a, n', r) ->
  Spec.has_char "," s = true -> Spec.has_char "," r = true.
Proof.
  induction s as [|c s IH]; intros acc n a n' r H Hc; simpl in *; [discriminate|].
  destruct (isdigit c) eqn:D.
  - destruct (Ascii.eqb_spec c ",") as [->|_]; [discriminate D|].
    simpl in Hc. eauto.
  - injection H as _ _ <-. exact Hc.
Qed.

Lemma has_comma_split_sign (s : string) :
  Spec.has_char "," s = true -> Spec.has_char "," (snd (split_sign s)) = true.
Proof.
  destruct s as [|c s]; [discriminate|].
  intros H. unfold split_sign.
  destruct (Ascii.eqb_spec c "-") as [->|Hm]; [exact H|].
  destruct (Ascii.eqb_spec c "+") as [->|Hp]; [exact H|].
  destruct c as [[] [] [] [] [] [] [] []]; try exact H; congruence.
Qed.

Lemma has_comma_upper (s : string) :
  Spec.has_char "," s = true -> Spec.has_char "," (upper s) = true.
Proof.
  induction s as [|c s IH]; simpl; [discriminate|].
  destruct (Ascii.eqb_spec c ",") as [->|Hc]; [reflexivity|].
  simpl. intros H. rewrite (IH H). apply orb_true_r.
Qed.

Lemma inf_or_nan_comma (neg : bool) (s : string) :
  Spec.has_char "," s = true -> inf_or_nan neg s = None.
Proof.
  intros H. apply has_comma_upper in H. unfold inf_or_nan.
  destruct (String.eqb_spec (upper s) "INF") as [E|_];
    [rewrite E in H; discriminate|].
  destruct (String.eqb_spec (upper s) "INFINITY") as [E|_];
    [rewrite E in H; discriminate|].
  destruct (String.eqb_spec (upper s) "NAN") as [E|_];
    [rewrite E in H; discriminate|].
  reflexivity.
Qed.

Lemma exponent_part_comma (s : string) :
  Spec.has_char "," s = true -> exponent_part s = None.
Proof.
  destruct s as [|c s]; [discriminate|].
  intros H. unfold exponent_part.
  destruct (Ascii.eqb c "e" || Ascii.eqb c "E") eqn:E; [|reflexivity].
  assert (Hs : Spec.has_char "," s = true).
  { cbn [Spec.has_char] in H. destruct (Ascii.eqb_spec c ",") as [->|_];
      [discriminate E|exact H]. }
  apply has_comma_split_sign in Hs.
  destruct (split_sign s) as [neg r']. simpl in Hs.
  destruct (span_digits 0 0 r') as [[ev ne] rest] eqn:S.
  pose proof (has_comma_span_digits _ _ _ _ _ _ S Hs) as Hr.
  destruct rest; [discriminate|reflexivity].
Qed.

Lemma float_literal_comma (t : string) :
  Spec.has_char "," t = true -> float_literal t = None.
Proof.
  intros H. unfold float_literal.
  apply has_comma_split_sign in H.
  destruct (split_sign t) as [neg r]. simpl in H.
  destruct (span_digits 0 0 r) as [[ip ni] r1] eqn:S1.
  pose proof (has_comma_span_digits _ _ _ _ _ _ S1 H) as H1.
  assert (H2 : forall m nf r2,
             match r1 with
             | String "."%char r' => span_digits ip 0 r'
             | _ => (ip, 0, r1)
             end = (m, nf, r2) -> Spec.has_char "," r2 = true).
  { intros m nf r2 E. destruct r1 as [|c r']; [discriminate|].
    destruct (Ascii.eqb_spec c ".") as [->|Hc].
    - apply (has_comma_span_digits _ _ _ _ _ _ E). exact H1.
    - assert (E' : (ip, 0, String c r') = (m, nf, r2)).
      { destruct c as [[] [] [] [] [] [] [] []]; try exact E; congruence. }
      injection E' as _ _ <-. exact H1. }
  destruct (match r1 with
            | String "."%char r' => span_digits ip 0 r'
            | _ => (ip, 0, r1)
            end) as [[m nf] r2].
  specialize (H2 _ _ _ eq_refl).
  destruct (ni + nf =? 0).
  - now apply inf_or_nan_comma.
  - now rewrite exponent_part_comma.
Qed.

Lemma to_float_comma (s : string) :
  Spec.has_char "," s = true -> to_float s = None.
Proof.
  intros H. unfold to_float.
  destruct (drop_underscores "000" s) as [t|] eqn:D; [|reflexivity].
  rewrite float_literal_comma; [reflexivity|].
  unfold strip_c.
  apply has_comma_rstrip; [reflexivity|].
  apply has_comma_lstrip; [reflexivity|].
  eapply has_comma_drop_underscores; eauto.
Qed.

(** *** Lines the joiner cannot decode *)

Lemma decode_tabbed (key payload : string) :
  Spec.has_char tab key = false ->
  Reducer.decode (key ++ String tab payload) =
    match map to_int (split "," key) with
    | [Some i; Some k] =>
        match split_max "," 2 payload with
        | [src; j_str; v_str] =>
            match to_int j_str, to_float v_str with
            | Some j, Some v => Ok (i, k, src, j, v)
            | _, _ => ValueError
            end
        | _ => ValueError
        end
    | _ => ValueError
    end.
Proof.
  intros H. unfold Reducer.decode.
  now rewrite (split_max_app tab 0 key payload H), split_max_0.
Qed.

Lemma decode_payload_count (payload : string) :
  List.length (split "," payload) <> 3%nat ->
  match split_max "," 2 payload with
  | [src; j_str; v_str] =>
      match to_int j_str, to_float v_str with
      | Some j, Some v => Ok (0, 0, src, j, v)
      | _, _ => ValueError
      end
  | _ => ValueError
  end = ValueError.
Proof.
  intros H.
  destruct (Nat.le_gt_cases (List.length (split "," payload)) 3) as [L|L].
  - rewrite split_max_short by exact L.
    destruct (split "," payload) as [|a [|b [|c [|d t]]]]; simpl in *;
      try reflexivity; lia.
  - destruct (split_max_long "," payload 2 L) as (l & r & E & Ll & R).
    rewrite E. destruct l as [|a [|b [|c t]]]; simpl in Ll; try lia.
    simpl. rewrite (to_float_comma r R). now destruct (to_int b).
Qed.

Ltac key_cases key :=
  destruct (map to_int (split "," key)) as [|[?|] [|[?|] [|? ?]]] eqn:?;
  try reflexivity.

Lemma decode_malformed (line : string) :
  Spec.Malformed line -> Reducer.decode line = ValueError.
Proof.
  intros [H | key payload -> Hk Hn | key payload -> Hk Hb
            | key payload src j_str v_str -> Hk Hs Hj
            | key payload src j_str v_str -> Hk Hs Hv].
  - unfold Reducer.decode. now rewrite split_max_no_sep.
  - rewrite decode_tabbed by exact Hk.
    pose proof (decode_payload_count payload Hn) as E.
    key_cases key.
    destruct (split_max "," 2 payload) as [|a [|b [|c [|d t]]]]; try reflexivity.
    destruct (to_int b), (to_float c); try reflexivity; discriminate.
  - rewrite decode_tabbed by exact Hk.
    key_cases key.
    match goal with
    | E : map to_int (split "," key) = [Some ?i; Some ?k] |- _ =>
        now destruct (Hb i k)
    end.
  - rewrite decode_tabbed by exact Hk.
    rewrite split_max_short by (rewrite Hs; simpl; lia).
    rewrite Hs, Hj. key_cases key.
  - rewrite decode_tabbed by exact Hk.
    rewrite split_max_short by (rewrite Hs; simpl; lia).
    rewrite Hs, Hv. key_cases key.
    now destruct (to_int j_str).
Qed.

(** C6 as the code has it: an ASCII line that is not blank after
    stripping and is malformed (no tab, a payload that does not split
    into three fields, a key that is not two integers, an inner index
    that is not an integer, a value that is not a float) ends the run
    with the exception; no later line is read, the active group is not
    flushed, and what was printed for the groups completed before it
    stays: when the lines before it decode, that is the fold over all
    their runs but the last. *)
Theorem C6_malformed_line_is_fatal
  (pre post : list string) (raw : string) (st : Reducer.state) :
  Reducer.loop Reducer.initial pre = (st, false) ->
  Spec.ascii_text raw = true ->
  strip raw <> "" ->
  Spec.Malformed (strip raw) ->
  Reducer.reducer (pre ++ raw :: post)
    = {| stdout := Reducer.printed st; crashed := true |}
  /\ (exists tail,
        stdout (Reducer.reducer pre) = (Reducer.printed st ++ tail)%list)
  /\ (forall rs, Spec.decode_all pre = Some rs ->
        Reducer.printed st = Spec.completed (Spec.runs rs)).
Proof.
  intros Hpre _ Hne Hm. split; [|split].
  - unfold Reducer.reducer. rewrite loop_app, Hpre. simpl.
    rewrite body_undecoded; [reflexivity|exact Hne|now apply decode_malformed].
  - unfold Reducer.reducer. rewrite Hpre. simpl. eauto.
  - intros rs Hd. rewrite (loop_decode_all pre rs _ Hd) in Hpre.
    injection Hpre as <-. apply absorb_all_printed_initial.
Qed.

Lemma C6_malformed_line_is_fatal_witness :
  Reducer.reducer
    (["0,0" ++ String tab "A,0,2"; "0,0" ++ String tab "B,0,3";
      "0,1" ++ String tab "A,0,1"]
       ++ "0,1 B,0,1" :: ["0,1" ++ String tab "B,0,5"])
  = {| stdout := ["0 0 6.0"]; crashed := true |}.
Proof.
  apply (C6_malformed_line_is_fatal
           ["0,0" ++ String tab "A,0,2"; "0,0" ++ String tab "B,0,3";
            "0,1" ++ String tab "A,0,1"]
           ["0,1" ++ String tab "B,0,5"]
           "0,1 B,0,1"
           (fst (Reducer.loop Reducer.initial
                   ["0,0" ++ String tab "A,0,2"; "0,0" ++ String tab "B,0,3";
                    "0,1" ++ String tab "A,0,1"]))).
  - vm_compute. reflexivity.
  - vm_compute. reflexivity.
  - vm_compute. discriminate.
  - apply Spec.no_tab. vm_compute. reflexivity.
Defined.

(** C6 as stated fails on a blank line: it has no tab, yet it is passed
    over, the run goes on and the lines after it are joined. *)
Lemma C6_blank_line_is_not_fatal :
  Spec.has_char tab "   " = false
  /\ Spec.Malformed (strip "   ")
  /\ Reducer.reducer
       ["0,0" ++ String tab "A,0,2"; "   "; "0,0" ++ String tab "B,0,3"]
     = {| stdout := ["0 0 6.0"]; crashed := false |}.
Proof.
  split; [reflexivity|]. split.
  - apply Spec.no_tab. reflexivity.
  - vm_compute. reflexivity.
Qed.

(** *** The key expander *)

Lemma mapper_body_skippable (MAX_I MAX_K : Z) (raw : string) :
  Spec.Skippable raw -> Mapper.body MAX_I MAX_K raw = Ok [].
Proof.
  intros [H | H | H | name r c v i j x Hs HA HB Hr Hc Hv]; unfold Mapper.body.
  - now rewrite (strip_all_space raw H).
  - rewrite H. now rewrite orb_true_r.
  - destruct (String.eqb (strip raw) "" || startswith (strip raw) "#");
      [reflexivity|].
    destruct (split "," (strip raw)) as [|a [|b [|c [|d [|e t]]]]];
      try reflexivity.
    now contradiction H.
  - destruct (String.eqb (strip raw) "" || startswith (strip raw) "#");
      [reflexivity|].
    rewrite Hs, Hr, Hc, Hv.
    destruct (String.eqb_spec (upper name) "A"); [contradiction|].
    destruct (String.eqb_spec (upper name) "B"); [contradiction|].
    reflexivity.
Qed.

Lemma comment_is_skippable (raw : string) :
  startswith raw "#" = true -> Spec.Skippable raw.
Proof.
  intros H. apply Spec.skip_comment.
  destruct raw as [|c s]; [discriminate|].
  cbn [startswith] in H. rewrite andb_true_r in H.
  apply Ascii.eqb_eq in H. subst c.
  unfold strip. simpl.
  destruct (rstrip_by isspace s); reflexivity.
Qed.

(** C7 as the code has it: an ASCII line that is blank, is a comment,
    does not have four fields, or has four fields with integers for row
    and column, a float for the value and a name that is neither A nor B
    in any case, prints nothing and the loop goes on with the next
    line. *)
Theorem C7_skippable_line_is_passed_over
  (MAX_I MAX_K : Z) (raw : string) :
  Spec.ascii_text raw = true ->
  Spec.Skippable raw ->
  Mapper.body MAX_I MAX_K raw = Ok []
  /\ forall printed rest,
       Mapper.run MAX_I MAX_K printed (raw :: rest)
       = Mapper.run MAX_I MAX_K printed rest.
Proof.
  intros _ H. pose proof (mapper_body_skippable MAX_I MAX_K raw H) as E.
  split; [exact E|].
  intros printed rest. simpl. now rewrite E, app_nil_r.
Qed.

Lemma C7_skippable_line_is_passed_over_witness :
  Mapper.run 2 2 [] ["c,0,1,2.5"; "A,0,0,1"] = Mapper.run 2 2 [] ["A,0,0,1"].
Proof.
  apply (C7_skippable_line_is_passed_over 2 2 "c,0,1,2.5").
  - vm_compute. reflexivity.
  - apply (Spec.skip_unknown_name "c,0,1,2.5" "c" "0" "1" "2.5" 0 1 2.5%float);
      try (vm_compute; reflexivity); vm_compute; discriminate.
Defined.

(** C7 as stated fails on a four-field line with an unknown name whose
    row is not an integer: the numbers are converted before the name is
    compared, so the run ends there and the next line is never read. *)
Lemma C7_unknown_name_bad_number_is_fatal :
  split "," (strip "C,x,1,2") = ["C"; "x"; "1"; "2"]
  /\ upper "C" <> "A" /\ upper "C" <> "B"
  /\ Mapper.body 2 2 "C,x,1,2" = ValueError
  /\ Mapper.mapper 2 2 ["C,x,1,2"; "A,0,0,1"] = {| stdout := []; crashed := true |}.
Proof.
  repeat split; try (vm_compute; reflexivity); vm_compute; discriminate.
Qed.

Lemma range_length (n : Z) : List.length (range n) = Z.to_nat n.
Proof. unfold range. now rewrite length_map, length_seq. Qed.

Lemma range_nth (n k : Z) :
  0 <= k < n -> nth_error (range n) (Z.to_nat k) = Some k.
Proof.
  intros H. unfold range. rewrite nth_error_map.
  rewrite nth_error_seq.
  destruct (Nat.ltb_spec (Z.to_nat k) (Z.to_nat n)) as [_|L]; [|lia].
  simpl. f_equal. lia.
Qed.

Lemma split_head_char (sep c : ascii) (s h : string) (t : list string) :
  split sep (String c s) = h :: t -> Ascii.eqb c sep = false ->
  exists h', h = String c h'.
Proof.
  simpl. intros H E. rewrite E in H.
  destruct (split sep s) as [|h' t']; injection H as <- _; eauto.
Qed.

Lemma mapper_guard_passes (line name : string) (t : list string) :
  split "," line = name :: t ->
  upper name = "A" \/ upper name = "B" ->
  String.eqb line "" || startswith line "#" = false.
Proof.
  intros Hs Hn. destruct line as [|c s].
  - simpl in Hs. injection Hs as <- _. destruct Hn; discriminate.
  - cbn [String.eqb startswith orb]. rewrite andb_true_r.
    destruct (Ascii.eqb_spec "#" c) as [<-|]; [|reflexivity].
    destruct (split_head_char "," "#" s name t Hs eq_refl) as [h' ->].
    destruct Hn; discriminate.
Qed.

Lemma line_A_render (r c : Z) (v : float) (k : Z) :
  Mapper.line_A r c v k =
  Spec.render ({| Spec.key_i := r; Spec.key_k := k |},
               {| Spec.frag_source := Spec.SrcA; Spec.innerIndex := c; Spec.value := v |}).
Proof. reflexivity. Qed.

Lemma line_B_render (r c : Z) (v : float) (i : Z) :
  Mapper.line_B r c v i =
  Spec.render ({| Spec.key_i := i; Spec.key_k := c |},
               {| Spec.frag_source := Spec.SrcB; Spec.innerIndex := r; Spec.value := v |}).
Proof. reflexivity. Qed.

Lemma mapper_body_entry (MAX_I MAX_K : Z) (raw name r c v : string)
  (row col : Z) (x : float) :
  split "," (strip raw) = [name; r; c; v] ->
  to_int r = Some row -> to_int c = Some col -> to_float v = Some x ->
  upper name = "A" \/ upper name = "B" ->
  Mapper.body MAX_I MAX_K raw =
    Ok (if String.eqb (upper name) "A"
        then map (Mapper.line_A row col x) (range MAX_K)
        else map (Mapper.line_B row col x) (range MAX_I)).
Proof.
  intros Hs Hr Hc Hv Hn. unfold Mapper.body.
  rewrite (mapper_guard_passes _ _ _ Hs Hn), Hs, Hr, Hc, Hv.
  destruct (String.eqb_spec (upper name) "A") as [|N]; [reflexivity|].
  destruct Hn as [E|E]; [contradiction|]. rewrite E. reflexivity.
Qed.

(** C2: a line with four fields, integers for row and column and a
    float for the value prints, when its name is A in either case, one
    record per [k] in [0, MAX_K), in increasing order, each the pair of
    the key [(row, k)] and the fragment [(A, col, value)]: [MAX_K]
    records in all; when its name is B, one record per [i] in
    [0, MAX_I), each the pair of [(i, col)] and [(B, row, value)]. *)
Theorem C2_fan_out
  (MAX_I MAX_K : Z) (raw name r c v : string) (row col : Z) (x : float) :
  0 <= MAX_I -> 0 <= MAX_K ->
  split "," (strip raw) = [name; r; c; v] ->
  to_int r = Some row -> to_int c = Some col -> to_float v = Some x ->
  (upper name = "A" ->
   exists out,
     Mapper.body MAX_I MAX_K raw = Ok out
     /\ Z.of_nat (List.length out) = MAX_K
     /\ forall k, 0 <= k < MAX_K ->
          nth_error out (Z.to_nat k) =
          Some (Spec.render
                  ({| Spec.key_i := row; Spec.key_k := k |},
                   {| Spec.frag_source := Spec.SrcA;
                      Spec.innerIndex := col; Spec.value := x |})))
  /\ (upper name = "B" ->
      exists out,
        Mapper.body MAX_I MAX_K raw = Ok out
        /\ Z.of_nat (List.length out) = MAX_I
        /\ forall i, 0 <= i < MAX_I ->
             nth_error out (Z.to_nat i) =
             Some (Spec.render
                     ({| Spec.key_i := i; Spec.key_k := col |},
                      {| Spec.frag_source := Spec.SrcB;
                         Spec.innerIndex := row; Spec.value := x |}))).
Proof.
  intros HI HK Hs Hr Hc Hv. split; intros Hn.
  - exists (map (Mapper.line_A row col x) (range MAX_K)). repeat split.
    + rewrite (mapper_body_entry _ _ _ _ _ _ _ _ _ _ Hs Hr Hc Hv (or_introl Hn)).
      now rewrite Hn.
    + rewrite length_map, range_length. lia.
    + intros k Hk. rewrite nth_error_map, (range_nth _ _ Hk). reflexivity.
  - exists (map (Mapper.line_B row col x) (range MAX_I)). repeat split.
    + rewrite (mapper_body_entry _ _ _ _ _ _ _ _ _ _ Hs Hr Hc Hv (or_intror Hn)).
      now rewrite Hn.
    + rewrite length_map, range_length. lia.
    + intros i Hi. rewrite nth_error_map, (range_nth _ _ Hi). reflexivity.
Qed.

Lemma C2_fan_out_witness :
  (upper "a" = "A" ->
   exists out,
     Mapper.body 3 2 "a,1,7,2.5" = Ok out
     /\ Z.of_nat (List.length out) = 2
     /\ forall k, 0 <= k < 2 ->
          nth_error out (Z.to_nat k) =
          Some (Spec.render
                  ({| Spec.key_i := 1; Spec.key_k := k |},
                   {| Spec.frag_source := Spec.SrcA;
                      Spec.innerIndex := 7; Spec.value := 2.5%float |})))
  /\ (upper "a" = "B" ->
      exists out,
        Mapper.body 3 2 "a,1,7,2.5" = Ok out
        /\ Z.of_nat (List.length out) = 3
        /\ forall i, 0 <= i < 3 ->
             nth_error out (Z.to_nat i) =
             Some (Spec.render
                     ({| Spec.key_i := i; Spec.key_k := 7 |},
                      {| Spec.frag_source := Spec.SrcB;
                         Spec.innerIndex := 1; Spec.value := 2.5%float |}))).
Proof.
  apply (C2_fan_out 3 2 "a,1,7,2.5" "a" "1" "7" "2.5" 1 7 2.5%float);
    try lia; vm_compute; reflexivity.
Defined.

(** *** The end-to-end example *)

(** *** Arrangements of a group *)

Lemma insert_all_in {A : Type} (x : A) (l1 l2 : list A) :
  In (l1 ++ x :: l2)%list (Example.insert_all x (l1 ++ l2)).
Proof.
  induction l1 as [|y l1 IH]; simpl.
  - destruct l2; simpl; auto.
  - right. apply in_map_iff. eauto.
Qed.

Lemma perms_complete {A : Type} (l' : list A) :
  forall l, Permutation l l' -> In l (Example.perms l').
Proof.
  induction l' as [|x xs IH]; intros l H; simpl.
  - left. symmetry. apply Permutation_nil. now symmetry.
  - destruct (Permutation_vs_cons_inv H) as (l1 & l2 & ->).
    apply in_flat_map. exists (l1 ++ l2)%list. split.
    + apply IH. symmetry in H. apply Permutation_cons_app_inv in H.
      now symmetry.
    + apply insert_all_in.
Qed.

Lemma decode_all_app (a b : list string) :
  Spec.decode_all (a ++ b) =
  match Spec.decode_all a, Spec.decode_all b with
  | Some x, Some y => Some (x ++ y)%list
  | _, _ => None
  end.
Proof.
  induction a as [|raw a IH]; simpl.
  - now destruct (Spec.decode_all b).
  - destruct (String.eqb (strip raw) ""); [exact IH|].
    destruct (Reducer.decode (strip raw)) as [r|]; [|reflexivity].
    rewrite IH.
    destruct (Spec.decode_all a), (Spec.decode_all b); reflexivity.
Qed.

(** A block of records of one key in front of a stream that starts with
    another key is a run of its own. *)
Lemma runs_block (key : Z * Z) (r : Reducer.record) (g rs : list Reducer.record) :
  forallb (fun r' => Spec.same_key (Spec.key_of r') key) (r :: g) = true ->
  match Spec.runs rs with
  | (key', _) :: _ => Spec.same_key key key' = false
  | [] => True
  end ->
  Spec.runs ((r :: g) ++ rs) = (key, r :: g) :: Spec.runs rs.
Proof.
  revert r. induction g as [|r' g IH]; intros r Hk Hh.
  - cbn [forallb] in Hk. apply andb_prop in Hk as [Hr _].
    apply same_key_true in Hr.
    cbn [app Spec.runs]. rewrite Hr.
    destruct (Spec.runs rs) as [|[key' g'] gs]; [reflexivity|].
    now rewrite Hh.
  - cbn [forallb] in Hk. apply andb_prop in Hk as [Hr Hk].
    apply same_key_true in Hr.
    change ((r :: r' :: g) ++ rs)%list with (r :: ((r' :: g) ++ rs))%list.
    cbn [Spec.runs]. rewrite (IH r' Hk Hh), Hr, same_key_refl. reflexivity.
Qed.

Lemma joins_to_spec (key : Z * Z) (line : string) (g : list string) :
  Example.joins_to key line g = true ->
  exists r rs,
    Spec.decode_all g = Some (r :: rs)
    /\ forallb (fun r' => Spec.same_key (Spec.key_of r') key) (r :: rs) = true
    /\ Spec.flush_group (key, r :: rs) = [line].
Proof.
  unfold Example.joins_to. intros H.
  destruct (Spec.decode_all g) as [[|r rs]|]; try discriminate.
  apply andb_prop in H as [H1 H2]. exists r, rs. repeat split; trivial.
  destruct (Spec.flush_group (key, r :: rs)) as [|l [|? ?]]; try discriminate.
  apply String.eqb_eq in H2. now subst.
Qed.

Lemma joins_to_arrangement (key : Z * Z) (line : string) (G g : list string) :
  forallb (Example.joins_to key line) (Example.perms G) = true ->
  Permutation g G ->
  Example.joins_to key line g = true.
Proof.
  intros H P. rewrite forallb_forall in H. apply H. now apply perms_complete.
Qed.

Lemma insert_perm (x : string) (l : list string) :
  Permutation (Shuffle.insert x l) (x :: l).
Proof.
  induction l as [|y l IH]; simpl; [reflexivity|].
  destruct (Shuffle.key_leb x y); [reflexivity|].
  rewrite IH. apply perm_swap.
Qed.

Lemma group_by_key_perm (l : list string) :
  Permutation (Shuffle.group_by_key l) l.
Proof.
  induction l as [|x l IH]; simpl; [reflexivity|].
  rewrite insert_perm. now constructor.
Qed.

Lemma runs_block_then (key : Z * Z) (r : Reducer.record)
  (g rs : list Reducer.record) (gs : list ((Z * Z) * list Reducer.record)) :
  forallb (fun r' => Spec.same_key (Spec.key_of r') key) (r :: g) = true ->
  Spec.runs rs = gs ->
  match gs with
  | (key', _) :: _ => Spec.same_key key key' = false
  | [] => True
  end ->
  Spec.runs ((r :: g) ++ rs) = (key, r :: g) :: gs.
Proof. intros Hk <- Hh. now apply runs_block. Qed.

(** C4 as the code has it: on the eight entries of the example, with
    [MAX_I = 2] and [MAX_K = 2], expansion, grouping by key and join
    print four lines in key order whose totals are rendered as floats,
    [19.0], [22.0], [43.0] and [50.0]; the grouping rearranges the
    expander's lines so that equal keys are contiguous; and the join of
    any arrangement that keeps the four keys in order prints the same,
    whatever the order of the lines inside each group. *)
Theorem C4_end_to_end_example :
  pipeline 2 2 Spec.example_entries
    = {| stdout := ["0 0 19.0"; "0 1 22.0"; "1 0 43.0"; "1 1 50.0"];
         crashed := false |}
  /\ Permutation
       (Shuffle.group_by_key Example.expanded)
       Example.expanded
  /\ option_map Spec.contiguous
       (Spec.decode_all (Shuffle.group_by_key Example.expanded)) = Some true
  /\ forall g00 g01 g10 g11,
       Permutation g00 (Example.lines_of_key "0,0") ->
       Permutation g01 (Example.lines_of_key "0,1") ->
       Permutation g10 (Example.lines_of_key "1,0") ->
       Permutation g11 (Example.lines_of_key "1,1") ->
       Reducer.reducer (g00 ++ g01 ++ g10 ++ g11)
       = {| stdout := ["0 0 19.0"; "0 1 22.0"; "1 0 43.0"; "1 1 50.0"];
            crashed := false |}.
Proof.
  split; [vm_compute; reflexivity|]. split; [|split].
  - apply group_by_key_perm.
  - vm_compute. reflexivity.
  - intros g00 g01 g10 g11 P00 P01 P10 P11.
    destruct (joins_to_spec (0, 0) "0 0 19.0" g00) as (r00 & rs00 & D00 & K00 & F00).
    { eapply joins_to_arrangement; [|exact P00]. vm_compute. reflexivity. }
    destruct (joins_to_spec (0, 1) "0 1 22.0" g01) as (r01 & rs01 & D01 & K01 & F01).
    { eapply joins_to_arrangement; [|exact P01]. vm_compute. reflexivity. }
    destruct (joins_to_spec (1, 0) "1 0 43.0" g10) as (r10 & rs10 & D10 & K10 & F10).
    { eapply joins_to_arrangement; [|exact P10]. vm_compute. reflexivity. }
    destruct (joins_to_spec (1, 1) "1 1 50.0" g11) as (r11 & rs11 & D11 & K11 & F11).
    { eapply joins_to_arrangement; [|exact P11]. vm_compute. reflexivity. }
    rewrite (reducer_decoded _
               ((r00 :: rs00) ++ (r01 :: rs01) ++ (r10 :: rs10) ++ (r11 :: rs11) ++ [])).
    + assert (R11 : Spec.runs ((r11 :: rs11) ++ []) = [((1, 1), r11 :: rs11)]).
      { now apply runs_block_then. }
      assert (R10 : Spec.runs ((r10 :: rs10) ++ (r11 :: rs11) ++ [])
                    = [((1, 0), r10 :: rs10); ((1, 1), r11 :: rs11)]).
      { now apply runs_block_then. }
      assert (R01 : Spec.runs ((r01 :: rs01) ++ (r10 :: rs10) ++ (r11 :: rs11) ++ [])
                    = [((0, 1), r01 :: rs01); ((1, 0), r10 :: rs10);
                       ((1, 1), r11 :: rs11)]).
      { now apply runs_block_then. }
      unfold Spec.fold_groups.
      rewrite (runs_block_then (0, 0) r00 rs00 _ _ K00 R01 eq_refl).
      cbn [map List.concat]. rewrite F00, F01, F10, F11. reflexivity.
    + rewrite !decode_all_app, D00, D01, D10, D11, app_nil_r. reflexivity.
Qed.

(** C4 as stated fails: the printed lines are not [0 0 19], [0 1 22],
    [1 0 43], [1 1 50], because a total is a float and is printed with
    its fractional part. *)
Lemma C4_lines_are_not_integer_formatted :
  stdout (pipeline 2 2 Spec.example_entries)
    <> ["0 0 19"; "0 1 22"; "1 0 43"; "1 1 50"].
Proof. vm_compute. discriminate. Qed.

(** *** Floating-point addition *)

Lemma Prim2SF_zero : Prim2SF 0%float = S754_zero false.
Proof. reflexivity. Qed.

Lemma SF64add_comm (x y : spec_float) : SF64add x y = SF64add y x.
Proof.
  unfold SF64add, SFadd.
  destruct x as [sx|sx| |sx mx ex], y as [sy|sy| |sy my ey];
    try reflexivity; try (destruct sx, sy; reflexivity).
  now rewrite Z.min_comm, Z.add_comm.
Qed.

Lemma SF64add_neg_zero_l (y : spec_float) : SF64add (S754_zero true) y = y.
Proof. destruct y as [[]|[]| |sy my ey]; reflexivity. Qed.

Lemma SF64add_zero_l (y : spec_float) :
  y <> S754_zero true -> SF64add (S754_zero false) y = y.
Proof. destruct y as [[]|[]| |sy my ey]; try reflexivity. congruence. Qed.

Lemma float_add_comm (x y : float) : (x + y)%float = (y + x)%float.
Proof. apply Prim2SF_inj. rewrite !add_spec. apply SF64add_comm. Qed.

Lemma float_zero_add (v : float) :
  v <> neg_zero -> (0 + v)%float = v.
Proof.
  intros H. apply Prim2SF_inj. rewrite add_spec, Prim2SF_zero.
  apply SF64add_zero_l. intros E. apply H.
  apply Prim2SF_inj. rewrite E. reflexivity.
Qed.

Lemma float_neg_zero_add (v : float) : (neg_zero + v)%float = v.
Proof.
  apply Prim2SF_inj. rewrite add_spec.
  change (Prim2SF neg_zero) with (S754_zero true).
  apply SF64add_neg_zero_l.
Qed.

Lemma float_eq_dec_neg_zero (v : float) : v = neg_zero \/ v <> neg_zero.
Proof.
  destruct (PrimFloat.Leibniz.eqb v neg_zero) eqn:E.
  - left. now apply Leibniz.eqb_spec.
  - right. intros H. apply Leibniz.eqb_spec in H. congruence.
Qed.

Lemma two_from_zero_comm (v1 v2 : float) :
  (0 + v1 + v2)%float = (0 + v2 + v1)%float.
Proof.
  destruct (float_eq_dec_neg_zero v1) as [->|H1];
  destruct (float_eq_dec_neg_zero v2) as [->|H2].
  - reflexivity.
  - rewrite (float_zero_add v2 H2).
    rewrite (float_add_comm v2 neg_zero), float_neg_zero_add.
    change (0 + neg_zero)%float with 0%float.
    now apply float_zero_add.
  - rewrite (float_zero_add v1 H1).
    rewrite (float_add_comm v1 neg_zero), float_neg_zero_add.
    change (0 + neg_zero)%float with 0%float.
    symmetry. now apply float_zero_add.
  - rewrite (float_zero_add v1 H1), (float_zero_add v2 H2).
    apply float_add_comm.
Qed.

Lemma two_from_zero_sum (v1 v2 : float) :
  (0 + v1 + v2)%float = (v1 + v2)%float
  \/ (v1 = neg_zero /\ v2 = neg_zero /\ (0 + v1 + v2)%float = 0%float).
Proof.
  destruct (float_eq_dec_neg_zero v1) as [->|H1].
  - destruct (float_eq_dec_neg_zero v2) as [->|H2].
    + right. repeat split.
    + left. rewrite float_neg_zero_add.
      change (0 + neg_zero)%float with 0%float.
      now apply float_zero_add.
  - left. now rewrite (float_zero_add v1 H1).
Qed.

Lemma getitem_absent (d : dict) (j : Z) :
  contains j d = false -> getitem j d = 0%float.
Proof.
  induction d as [|[j' a] d IH]; simpl; [reflexivity|].
  intros H. apply orb_false_elim in H as [E H]. rewrite E. auto.
Qed.

(** C5 as the code has it: two fragments of one key, one source and one
    inner index are added, the second on top of the first and both on
    top of what the accumulator held; at an index not yet present the
    accumulator starts from [0.0] and ends as the float sum of the two
    values (as [0.0] where that sum is the negative zero), which is the
    value the dot product then multiplies, and the two may arrive in
    either order; the other inner indices are not touched. Nothing is
    promised for three or more fragments. *)
Theorem C5_two_fragments_add_up
  (d B : dict) (j : Z) (v1 v2 : float) :
  contains j d = false ->
  getitem j (iadd (iadd d j v1) j v2) = (getitem j d + v1 + v2)%float
  /\ getitem j (Spec.accumulate d j [v1; v2]) = (0 + v1 + v2)%float
  /\ (getitem j (Spec.accumulate d j [v1; v2]) = (v1 + v2)%float
      \/ (v1 = neg_zero /\ v2 = neg_zero
          /\ getitem j (Spec.accumulate d j [v1; v2]) = 0%float))
  /\ getitem j (Spec.accumulate d j [v1; v2])
     = getitem j (Spec.accumulate d j [v2; v1])
  /\ Reducer.dot (Spec.accumulate [] j [v1; v2]) B
     = (if contains j B then (0 + (0 + v1 + v2) * getitem j B)%float else 0%float)
  /\ (forall j', j' <> j ->
        contains j' (Spec.accumulate d j [v1; v2]) = contains j' d
        /\ getitem j' (Spec.accumulate d j [v1; v2]) = getitem j' d).
Proof.
  intros Hd.
  assert (E : forall a b,
             getitem j (Spec.accumulate d j [a; b]) = (0 + a + b)%float).
  { intros a b. unfold Spec.accumulate. simpl.
    now rewrite !getitem_iadd_same, (getitem_absent d j Hd). }
  repeat split.
  - now rewrite !getitem_iadd_same.
  - apply E.
  - rewrite E. apply two_from_zero_sum.
  - rewrite !E. apply two_from_zero_comm.
  - unfold Spec.accumulate, Reducer.dot. simpl. rewrite Z.eqb_refl. reflexivity.
  - unfold Spec.accumulate. simpl. now rewrite !contains_iadd_other.
  - unfold Spec.accumulate. simpl. now rewrite !getitem_iadd_other.
Qed.

Lemma C5_two_fragments_add_up_witness :
  getitem 3 (iadd (iadd [(1, 4%float)] 3 0.5%float) 3 0.25%float) = 0.75%float.
Proof.
  apply (C5_two_fragments_add_up [(1, 4%float)] [] 3 0.5%float 0.25%float).
  reflexivity.
Defined.

(** C5 as stated fails: with three fragments at one inner index the
    accumulated value depends on the order in which they arrive, and so
    does the printed result. *)
Lemma C5_order_of_three_fragments_matters :
  Permutation [1e16; 1; -1e16]%float [1e16; -1e16; 1]%float
  /\ getitem 0 (Spec.accumulate [] 0 [1e16; 1; -1e16]%float) = 0%float
  /\ getitem 0 (Spec.accumulate [] 0 [1e16; -1e16; 1]%float) = 1%float
  /\ Reducer.reducer
       ["0,0" ++ String tab "A,0,1e16"; "0,0" ++ String tab "A,0,1";
        "0,0" ++ String tab "A,0,-1e16"; "0,0" ++ String tab "B,0,1"]
     = {| stdout := []; crashed := false |}
  /\ Reducer.reducer
       ["0,0" ++ String tab "A,0,1e16"; "0,0" ++ String tab "A,0,-1e16";
        "0,0" ++ String tab "A,0,1"; "0,0" ++ String tab "B,0,1"]
     = {| stdout := ["0 0 1.0"]; crashed := false |}.
Proof.
  split; [apply perm_skip, perm_swap|].
  repeat split; vm_compute; reflexivity.
Qed.

(** Products that cancel: A holds 2 and 3, B holds -3 and 2 at the same
    two inner indices, the total is [0.0] and nothing is printed. *)
Example flush_exact_cancellation :
  Reducer.flush (Some (0, 0))
    [(0, 2%float); (1, 3%float)] [(0, (-3)%float); (1, 2%float)] = [].
Proof. vm_compute. reflexivity. Qed.

(* ================================================================= *)
(** ** Further properties of the four scripts *)

(** *** Integers printed and read back *)

Lemma int_digits_unfold (acc : Z) (c : ascii) (rest : string) :
  int_digits acc (String c rest) =
  if isdigit c then
    match rest with
    | EmptyString => Some (10 * acc + digit_val c)
    | String "_"%char rest' => int_digits (10 * acc + digit_val c) rest'
    | _ => int_digits (10 * acc + digit_val c) rest
    end
  else None.
Proof. reflexivity. Qed.

Lemma int_digits_next (acc : Z) (c c' : ascii) (rest : string) :
  isdigit c = true -> isdigit c' = true ->
  int_digits acc (String c (String c' rest))
  = int_digits (10 * acc + digit_val c) (String c' rest).
Proof.
  intros Hc Hc'. rewrite int_digits_unfold, Hc.
  destruct c' as [[] [] [] [] [] [] [] []]; try reflexivity; discriminate Hc'.
Qed.

Lemma int_digits_all_digits (s : string) :
  forall acc, s <> "" -> WordCount.all_chars isdigit s = true ->
  int_digits acc s
  = Some (fold_left (fun a c => 10 * a + digit_val c) (list_ascii_of_string s) acc).
Proof.
  induction s as [|c s IH]; intros acc Hne H; [contradiction|].
  cbn [WordCount.all_chars] in H. apply andb_prop in H as [Hc Hs].
  destruct s as [|c' s].
  - rewrite int_digits_unfold, Hc. reflexivity.
  - pose proof Hs as Hs'. cbn [WordCount.all_chars] in Hs'.
    apply andb_prop in Hs' as [Hc' _].
    rewrite (int_digits_next acc c c' s Hc Hc').
    rewrite IH by (discriminate || assumption). reflexivity.
Qed.

Lemma uint_all_digits (d : Decimal.uint) :
  WordCount.all_chars isdigit (NilEmpty.string_of_uint d) = true.
Proof. induction d; cbn [NilEmpty.string_of_uint WordCount.all_chars]; auto. Qed.

Lemma uint_value_pos (d : Decimal.uint) :
  forall p,
  fold_left (fun a c => 10 * a + digit_val c)
            (list_ascii_of_string (NilEmpty.string_of_uint d)) (Zpos p)
  = Zpos (Pos.of_uint_acc d p).
Proof.
  induction d; intros p; cbn [NilEmpty.string_of_uint list_ascii_of_string
                               fold_left Pos.of_uint_acc];
    [reflexivity| ..];
    match goal with
    | |- fold_left _ _ (10 * Zpos p + digit_val ?c) = Zpos (Pos.of_uint_acc _ ?q) =>
        replace (10 * Zpos p + digit_val c) with (Zpos q)
          by (let v := eval vm_compute in (digit_val c) in
              change (digit_val c) with v; lia)
    end; apply IHd.
Qed.

Lemma uint_value (d : Decimal.uint) :
  fold_left (fun a c => 10 * a + digit_val c)
            (list_ascii_of_string (NilEmpty.string_of_uint d)) 0
  = Z.of_N (Pos.of_uint d).
Proof.
  induction d; cbn [NilEmpty.string_of_uint list_ascii_of_string fold_left Pos.of_uint];
    [reflexivity|exact IHd| ..];
    match goal with
    | |- fold_left _ _ (10 * 0 + digit_val ?c) = _ =>
        let v := eval vm_compute in (10 * 0 + digit_val c) in
        change (10 * 0 + digit_val c) with v
    end; apply uint_value_pos.
Qed.

Lemma digit_not_space (c : ascii) :
  isdigit c = true -> isspace c = false /\ isspace_c c = false.
Proof.
  destruct c as [[] [] [] [] [] [] [] []]; intros H;
    try discriminate H; split; reflexivity.
Qed.

Lemma lstrip_by_head (sp : ascii -> bool) (c : ascii) (s : string) :
  sp c = false -> lstrip_by sp (String c s) = String c s.
Proof. intros H. simpl. now rewrite H. Qed.

Lemma rstrip_by_tight (sp : ascii -> bool) (s : string) :
  WordCount.all_chars (fun c => negb (sp c)) s = true -> rstrip_by sp s = s.
Proof.
  induction s as [|c s IH]; [reflexivity|].
  cbn [WordCount.all_chars rstrip_by]. intros H.
  apply andb_prop in H as [Hc Hs]. rewrite (IH Hs).
  apply negb_true_iff in Hc. rewrite Hc. now destruct s.
Qed.

Lemma all_chars_impl (p q : ascii -> bool) (s : string) :
  (forall c, p c = true -> q c = true) ->
  WordCount.all_chars p s = true -> WordCount.all_chars q s = true.
Proof.
  intros Hpq. induction s as [|c s IH]; [reflexivity|].
  cbn [WordCount.all_chars]. intros H. apply andb_prop in H as [Hc Hs].
  now rewrite (Hpq c Hc), IH.
Qed.

Lemma all_chars_app (p : ascii -> bool) (a b : string) :
  WordCount.all_chars p (a ++ b)
  = WordCount.all_chars p a && WordCount.all_chars p b.
Proof.
  induction a as [|c a IH]; [reflexivity|].
  cbn [append WordCount.all_chars]. now rewrite IH, andb_assoc.
Qed.

Lemma strip_c_digits (s : string) :
  WordCount.all_chars isdigit s = true -> strip_c s = s.
Proof.
  intros H. unfold strip_c.
  assert (T : WordCount.all_chars (fun c => negb (isspace_c c)) s = true).
  { revert H. apply all_chars_impl. intros c Hc.
    now destruct (digit_not_space c Hc) as [_ ->]. }
  destruct s as [|c s]; [reflexivity|].
  cbn [WordCount.all_chars] in H. apply andb_prop in H as [Hc _].
  destruct (digit_not_space c Hc) as [_ Hs].
  rewrite (lstrip_by_head _ c s Hs). now apply rstrip_by_tight.
Qed.

Lemma to_int_digits (s : string) :
  s <> "" -> WordCount.all_chars isdigit s = true ->
  to_int s = int_digits 0 s.
Proof.
  intros Hne H. unfold to_int. rewrite (strip_c_digits s H).
  destruct s as [|c r]; [contradiction|].
  cbn [WordCount.all_chars] in H. apply andb_prop in H as [Hc _].
  destruct c as [[] [] [] [] [] [] [] []]; try reflexivity; discriminate Hc.
Qed.

Lemma uint_string_nonempty (d : Decimal.uint) :
  d <> Decimal.Nil -> NilEmpty.string_of_uint d <> "".
Proof. destruct d; [contradiction|discriminate ..]. Qed.

Lemma to_int_pos_digits (p : positive) :
  to_int (NilEmpty.string_of_uint (Pos.to_uint p)) = Some (Zpos p)
  /\ int_digits 0 (NilEmpty.string_of_uint (Pos.to_uint p)) = Some (Zpos p).
Proof.
  pose proof (DecimalPos.Unsigned.to_uint_nonnil p) as Hn.
  pose proof (uint_string_nonempty _ Hn) as Hne.
  pose proof (uint_all_digits (Pos.to_uint p)) as Hd.
  assert (E : int_digits 0 (NilEmpty.string_of_uint (Pos.to_uint p)) = Some (Zpos p)).
  { rewrite (int_digits_all_digits _ 0 Hne Hd), uint_value.
    now rewrite DecimalPos.Unsigned.of_to. }
  split; [|exact E]. now rewrite (to_int_digits _ Hne Hd).
Qed.

Lemma str_pos (p : positive) :
  str (Zpos p) = NilEmpty.string_of_uint (Pos.to_uint p).
Proof.
  unfold str. cbn [Z.to_int NilZero.string_of_int NilZero.string_of_uint].
  pose proof (DecimalPos.Unsigned.to_uint_nonnil p).
  now destruct (Pos.to_uint p).
Qed.

Lemma str_neg (p : positive) :
  str (Zneg p) = String "-" (NilEmpty.string_of_uint (Pos.to_uint p)).
Proof.
  unfold str. cbn [Z.to_int NilZero.string_of_int NilZero.string_of_uint].
  pose proof (DecimalPos.Unsigned.to_uint_nonnil p).
  now destruct (Pos.to_uint p).
Qed.

Lemma to_int_str (n : Z) : to_int (str n) = Some n.
Proof.
  destruct n as [|p|p].
  - reflexivity.
  - rewrite str_pos. apply to_int_pos_digits.
  - rewrite str_neg.
    pose proof (DecimalPos.Unsigned.to_uint_nonnil p) as Hn.
    pose proof (uint_string_nonempty _ Hn) as Hne.
    pose proof (uint_all_digits (Pos.to_uint p)) as Hd.
    unfold to_int, strip_c.
    rewrite lstrip_by_head by reflexivity.
    rewrite rstrip_by_tight.
    + destruct (to_int_pos_digits p) as [_ ->]. reflexivity.
    + cbn [WordCount.all_chars]. cbn.
      revert Hd. apply all_chars_impl. intros c Hc.
      now destruct (digit_not_space c Hc) as [_ ->].
Qed.

(** *** The word-count reducer against the fold over runs *)

Lemma wc_loop_parse_all (input : list string) :
  forall st,
  WordCount.Reducer.loop st input
  = fold_left WordCount.Reducer.absorb (WordCount.parse_all input) st.
Proof.
  unfold WordCount.Reducer.loop.
  induction input as [|raw input IH]; intros st; [reflexivity|].
  cbn [fold_left WordCount.parse_all]. unfold WordCount.Reducer.body at 2.
  destruct (String.eqb (strip raw) ""); [apply IH|].
  destruct (WordCount.Reducer.parse (strip raw)) as [r|]; apply IH.
Qed.

Lemma compress_head (w : string) (n : Z) (rest : list (string * Z)) :
  exists n' gs, WordCount.compress ((w, n) :: rest) = (w, n') :: gs.
Proof.
  cbn [WordCount.compress].
  destruct (WordCount.compress rest) as [|[w' n'] gs]; [eauto|].
  destruct (String.eqb_spec w w') as [<-|]; eauto.
Qed.

Lemma compress_same (w : string) (n n1 : Z) (rest : list (string * Z)) :
  WordCount.compress ((w, n) :: (w, n1) :: rest)
  = WordCount.compress ((w, n + n1) :: rest).
Proof.
  cbn [WordCount.compress].
  destruct (WordCount.compress rest) as [|[w' n'] gs].
  - now rewrite String.eqb_refl.
  - destruct (String.eqb_spec w w') as [<-|N].
    + rewrite String.eqb_refl. now rewrite Z.add_assoc.
    + now rewrite String.eqb_refl.
Qed.

Lemma compress_other (w w1 : string) (n n1 : Z) (rest : list (string * Z)) :
  String.eqb w1 w = false ->
  WordCount.compress ((w, n) :: (w1, n1) :: rest)
  = (w, n) :: WordCount.compress ((w1, n1) :: rest).
Proof.
  intros N. destruct (compress_head w1 n1 rest) as (n' & gs & E).
  change (WordCount.compress ((w, n) :: (w1, n1) :: rest))
    with (match WordCount.compress ((w1, n1) :: rest) with
          | (w', n') :: gs =>
              if String.eqb w w' then (w', n + n') :: gs
              else (w, n) :: (w', n') :: gs
          | [] => [(w, n)]
          end).
  rewrite E. now rewrite String.eqb_sym, N.
Qed.

(** What the loop and the last statement print, from a state with an
    active word. *)
Lemma wc_absorb_all (rs : list (string * Z)) :
  forall w n P,
  WordCount.Reducer.finish
    (fold_left WordCount.Reducer.absorb rs
       {| WordCount.Reducer.current_word := Some w;
          WordCount.Reducer.current_count := n;
          WordCount.Reducer.printed := P |})
  = (P ++ map WordCount.line_of (WordCount.compress ((w, n) :: rs)))%list.
Proof.
  induction rs as [|[w1 n1] rs IH]; intros w n P.
  - reflexivity.
  - cbn [fold_left]. unfold WordCount.Reducer.absorb at 2.
    cbn [WordCount.Reducer.current_word WordCount.Reducer.current_count
         WordCount.Reducer.printed WordCount.Reducer.differs].
    destruct (String.eqb w1 w) eqn:E; cbn [negb].
    + apply String.eqb_eq in E. subst w1.
      cbn [WordCount.Reducer.current_word WordCount.Reducer.current_count
           WordCount.Reducer.printed].
      rewrite IH. now rewrite compress_same.
    + cbn [WordCount.Reducer.current_word WordCount.Reducer.current_count
           WordCount.Reducer.printed].
      rewrite IH, (compress_other w w1 n n1 rs E), <- app_assoc.
      reflexivity.
Qed.

Lemma wc_reducer_parsed (input : list string) :
  WordCount.Reducer.reducer input
  = map WordCount.line_of (WordCount.compress (WordCount.parse_all input)).
Proof.
  unfold WordCount.Reducer.reducer. rewrite wc_loop_parse_all.
  destruct (WordCount.parse_all input) as [|[w n] rs]; [reflexivity|].
  cbn [fold_left]. unfold WordCount.Reducer.absorb at 2.
  cbn [WordCount.Reducer.initial WordCount.Reducer.current_word
       WordCount.Reducer.current_count WordCount.Reducer.printed
       WordCount.Reducer.differs].
  rewrite String.eqb_refl. cbn [negb].
  cbn [WordCount.Reducer.current_word WordCount.Reducer.current_count
       WordCount.Reducer.printed].
  now rewrite wc_absorb_all.
Qed.

Lemma compress_neighbours (rs : list (string * Z)) :
  forall gs1 a b gs2,
  WordCount.compress rs = (gs1 ++ a :: b :: gs2)%list ->
  String.eqb (fst a) (fst b) = false.
Proof.
  induction rs as [|[w n] rs IH]; intros gs1 a b gs2 E.
  - now destruct gs1.
  - cbn [WordCount.compress] in E.
    destruct (WordCount.compress rs) as [|[w' n'] gs] eqn:C.
    + destruct gs1 as [|x [|y gs1]]; discriminate.
    + destruct (String.eqb w w') eqn:Q.
      * destruct gs1 as [|x gs1]; injection E as <- E.
        -- apply (IH [] (w', n') b gs2). now subst gs.
        -- apply (IH ((w', n') :: gs1) a b gs2). now subst gs.
      * destruct gs1 as [|x gs1].
        -- injection E as <- <- _. exact Q.
        -- injection E as _ E. apply (IH gs1 a b gs2). exact E.
Qed.

Lemma total_compress (w : string) (rs : list (string * Z)) :
  WordCount.total w (WordCount.compress rs) = WordCount.total w rs.
Proof.
  induction rs as [|[w0 n] rs IH]; [reflexivity|].
  cbn [WordCount.compress WordCount.total]. rewrite <- IH.
  destruct (WordCount.compress rs) as [|[w' n'] gs]; [reflexivity|].
  destruct (String.eqb_spec w0 w') as [->|N]; cbn [WordCount.total].
  - destruct (String.eqb w w'); lia.
  - reflexivity.
Qed.



Lemma wc_parse_tabbed (w c : string) :
  Spec.has_char tab w = false ->
  WordCount.Reducer.parse (w ++ String tab c)
  = option_map (pair w) (to_int c).
Proof.
  intros H. unfold WordCount.Reducer.parse.
  rewrite (split_max_app tab 0 w c H), split_max_0.
  now destruct (to_int c).
Qed.

Lemma wc_parse_all_app (a b : list string) :
  WordCount.parse_all (a ++ b)
  = (WordCount.parse_all a ++ WordCount.parse_all b)%list.
Proof.
  induction a as [|raw a IH]; [reflexivity|].
  cbn [app WordCount.parse_all].
  destruct (String.eqb (strip raw) ""); [exact IH|].
  destruct (WordCount.Reducer.parse (strip raw)); [|exact IH].
  cbn [app]. now rewrite IH.
Qed.

(** *** Stripping *)

Lemma lstrip_by_nonspace (sp : ascii -> bool) (s : string) :
  match lstrip_by sp s with
  | EmptyString => True
  | String c _ => sp c = false
  end.
Proof.
  induction s as [|c s IH]; simpl; [exact I|].
  destruct (sp c) eqn:E; [exact IH|exact E].
Qed.

Lemma rstrip_by_head (sp : ascii -> bool) (c : ascii) (s : string) :
  sp c = false -> exists r, rstrip_by sp (String c s) = String c r.
Proof.
  intros H. cbn [rstrip_by]. rewrite H.
  destruct (rstrip_by sp s); eauto.
Qed.

Lemma strip_head (s : string) (c : ascii) (r : string) :
  strip s = String c r -> isspace c = false.
Proof.
  unfold strip. pose proof (lstrip_by_nonspace isspace s) as H.
  destruct (lstrip_by isspace s) as [|c0 r0]; [discriminate|].
  destruct (rstrip_by_head isspace c0 r0 H) as [r' E]. rewrite E.
  now intros [= <- _].
Qed.

Lemma rstrip_by_app (sp : ascii -> bool) (a b : string) :
  b <> "" -> rstrip_by sp b = b -> rstrip_by sp (a ++ b) = a ++ b.
Proof.
  intros Hne Hb. induction a as [|c a IH]; [exact Hb|].
  cbn [append rstrip_by]. rewrite IH.
  destruct (a ++ b) eqn:E; [|reflexivity].
  destruct a; [contradiction|discriminate].
Qed.

Lemma split_max_1_inv (sep : ascii) (s a b : string) :
  split_max sep 1 s = [a; b] ->
  s = a ++ String sep b /\ Spec.has_char sep a = false.
Proof.
  revert a. induction s as [|c s IH]; intros a H; [discriminate|].
  cbn [split_max] in H. destruct (Ascii.eqb_spec c sep) as [->|N].
  - rewrite split_max_0 in H. injection H as <- <-. auto.
  - destruct (split_max sep 1 s) as [|h [|h' [|? ?]]] eqn:E; try discriminate.
    injection H as <- <-. destruct (IH h eq_refl) as [-> Hh].
    split; [reflexivity|]. cbn [Spec.has_char].
    destruct (Ascii.eqb_spec c sep); [contradiction|exact Hh].
Qed.

(** *** What the word-count reducer prints, read back *)

Lemma str_tight (n : Z) :
  str n <> ""
  /\ WordCount.all_chars (fun c => negb (isspace c)) (str n) = true.
Proof.
  assert (D : forall d, WordCount.all_chars (fun c => negb (isspace c))
                          (NilEmpty.string_of_uint d) = true).
  { intros d. generalize (uint_all_digits d). apply all_chars_impl.
    intros c Hc. now destruct (digit_not_space c Hc) as [-> _]. }
  destruct n as [|p|p].
  - split; [discriminate|reflexivity].
  - rewrite str_pos. split; [|apply D].
    apply uint_string_nonempty, DecimalPos.Unsigned.to_uint_nonnil.
  - rewrite str_neg. split; [discriminate|].
    cbn [WordCount.all_chars]. now rewrite D.
Qed.

Lemma strip_count_line (w : string) (n : Z) :
  WordCount.readable w = true ->
  strip (WordCount.line_of (w, n)) = WordCount.line_of (w, n).
Proof.
  intros H. destruct w as [|c w]; [discriminate|].
  cbn [WordCount.readable] in H. apply andb_prop in H as [Hc _].
  apply negb_true_iff in Hc.
  unfold WordCount.line_of, WordCount.Reducer.count_line, strip.
  cbn [fst snd WordCount.Reducer.show_word append].
  rewrite (lstrip_by_head isspace c _ Hc).
  destruct (str_tight n) as [Hne Ht].
  apply (rstrip_by_app isspace (String c w) (String tab (str n)));
    [discriminate|].
  apply (rstrip_by_app isspace (String tab "") (str n)); [exact Hne|].
  now apply rstrip_by_tight.
Qed.

Lemma wc_parse_line_of (w : string) (n : Z) :
  WordCount.readable w = true ->
  strip (WordCount.line_of (w, n)) <> ""
  /\ WordCount.Reducer.parse (strip (WordCount.line_of (w, n))) = Some (w, n).
Proof.
  intros H. rewrite (strip_count_line w n H).
  destruct w as [|c w]; [discriminate|].
  split; [discriminate|].
  cbn [WordCount.readable] in H. apply andb_prop in H as [_ Ht].
  apply negb_true_iff in Ht.
  unfold WordCount.line_of, WordCount.Reducer.count_line.
  cbn [fst snd WordCount.Reducer.show_word].
  now rewrite (wc_parse_tabbed _ _ Ht), to_int_str.
Qed.

Lemma wc_parse_all_lines (rs : list (string * Z)) :
  Forall (fun r => WordCount.readable (fst r) = true) rs ->
  WordCount.parse_all (map WordCount.line_of rs) = rs.
Proof.
  induction 1 as [|[w n] rs Hr _ IH]; [reflexivity|].
  cbn [map WordCount.parse_all]. cbn [fst] in Hr.
  destruct (wc_parse_line_of w n Hr) as [Hne ->].
  destruct (String.eqb_spec (strip (WordCount.line_of (w, n))) "");
    [contradiction|].
  now rewrite IH.
Qed.

Lemma wc_parse_readable (raw w : string) (n : Z) :
  strip raw <> "" ->
  WordCount.Reducer.parse (strip raw) = Some (w, n) ->
  WordCount.readable w = true.
Proof.
  intros Hne H. unfold WordCount.Reducer.parse in H.
  destruct (split_max tab 1 (strip raw)) as [|a [|b [|? ?]]] eqn:E;
    try discriminate.
  destruct (to_int b); [|discriminate]. injection H as -> _.
  apply split_max_1_inv in E as [E Ht].
  destruct (strip raw) as [|c r] eqn:S; [contradiction|].
  pose proof (strip_head raw c r S) as Hc.
  destruct w as [|c' w'].
  - cbn in E. injection E as -> _. discriminate Hc.
  - cbn in E. injection E as <- _.
    cbn [WordCount.readable]. now rewrite Hc, Ht.
Qed.

Lemma wc_parse_all_readable (input : list string) :
  Forall (fun r => WordCount.readable (fst r) = true)
         (WordCount.parse_all input).
Proof.
  induction input as [|raw input IH]; [constructor|].
  cbn [WordCount.parse_all].
  destruct (String.eqb_spec (strip raw) "") as [|Hne]; [exact IH|].
  destruct (WordCount.Reducer.parse (strip raw)) as [[w n]|] eqn:P;
    [|exact IH].
  constructor; [|exact IH]. now apply (wc_parse_readable raw w n).
Qed.

Lemma compress_words (rs : list (string * Z)) (w : string) :
  In w (map fst (WordCount.compress rs)) <-> In w (map fst rs).
Proof.
  induction rs as [|[w0 n] rs IH]; [reflexivity|].
  cbn [WordCount.compress].
  destruct (WordCount.compress rs) as [|[w' n'] gs].
  - cbn in *. tauto.
  - destruct (String.eqb_spec w0 w') as [->|N]; cbn in *; tauto.
Qed.

Lemma compress_readable (rs : list (string * Z)) :
  Forall (fun r => WordCount.readable (fst r) = true) rs ->
  Forall (fun r => WordCount.readable (fst r) = true) (WordCount.compress rs).
Proof.
  rewrite !Forall_forall. intros H [w n] HIn. cbn [fst].
  assert (Hw : In w (map fst rs)).
  { apply compress_words. apply in_map_iff. now exists (w, n). }
  apply in_map_iff in Hw as ([w1 n1] & <- & H1). exact (H _ H1).
Qed.

Lemma compress_fixed (l : list (string * Z)) :
  (forall gs1 a b gs2, l = (gs1 ++ a :: b :: gs2)%list ->
                       String.eqb (fst a) (fst b) = false) ->
  WordCount.compress l = l.
Proof.
  induction l as [|[w n] l IH]; intros H; [reflexivity|].
  cbn [WordCount.compress]. rewrite IH.
  - destruct l as [|[w' n'] gs]; [reflexivity|].
    pose proof (H [] (w, n) (w', n') gs eq_refl) as Q. cbn [fst] in Q.
    now rewrite Q.
  - intros gs1 a b gs2 E. apply (H ((w, n) :: gs1) a b gs2). now rewrite E.
Qed.

Lemma compress_idempotent (rs : list (string * Z)) :
  WordCount.compress (WordCount.compress rs) = WordCount.compress rs.
Proof. apply compress_fixed, compress_neighbours. Qed.

Lemma compress_app_r (a b : list (string * Z)) :
  WordCount.compress (a ++ b) = WordCount.compress (a ++ WordCount.compress b).
Proof.
  induction a as [|[w n] a IH].
  - symmetry. apply compress_idempotent.
  - cbn [app WordCount.compress]. now rewrite IH.
Qed.

Lemma compress_app_l (a b : list (string * Z)) :
  WordCount.compress (a ++ b) = WordCount.compress (WordCount.compress a ++ b).
Proof.
  induction a as [|[w n] a IH]; [reflexivity|].
  change (WordCount.compress (((w, n) :: a) ++ b))
    with (match WordCount.compress (a ++ b) with
          | (w', n') :: gs =>
              if String.eqb w w' then (w', n + n') :: gs
              else (w, n) :: (w', n') :: gs
          | [] => [(w, n)]
          end).
  rewrite IH.
  change (match WordCount.compress (WordCount.compress a ++ b) with
          | (w', n') :: gs =>
              if String.eqb w w' then (w', n + n') :: gs
              else (w, n) :: (w', n') :: gs
          | [] => [(w, n)]
          end)
    with (WordCount.compress ((w, n) :: WordCount.compress a ++ b)).
  change (WordCount.compress ((w, n) :: a))
    with (match WordCount.compress a with
          | (w', n') :: gs =>
              if String.eqb w w' then (w', n + n') :: gs
              else (w, n) :: (w', n') :: gs
          | [] => [(w, n)]
          end).
  destruct (WordCount.compress a) as [|[w' n'] gs]; [reflexivity|].
  destruct (String.eqb_spec w w') as [<-|N]; [|reflexivity].
  cbn [app]. now rewrite compress_same.
Qed.

Lemma compress_merge (a b : list (string * Z)) :
  WordCount.compress (WordCount.compress a ++ WordCount.compress b)
  = WordCount.compress (a ++ b).
Proof. now rewrite <- compress_app_l, <- compress_app_r. Qed.

(** *** The word-count mapper *)

Lemma findall_words (q : ascii -> bool) (s : string) :
  WordCount.all_chars q s = true ->
  Forall (fun w => w <> ""
                   /\ WordCount.all_chars
                        (fun c => WordCount.word_char c && q c) w = true)
         (WordCount.findall s).
Proof.
  induction s as [|c s IH]; intros H; [constructor|].
  cbn [WordCount.all_chars] in H. apply andb_prop in H as [Hc Hs].
  specialize (IH Hs). cbn [WordCount.findall].
  destruct (WordCount.word_char c) eqn:W; [|exact IH].
  assert (One : (String c "" <> ""
                 /\ WordCount.all_chars
                      (fun c => WordCount.word_char c && q c) (String c "") = true)).
  { split; [discriminate|]. cbn. now rewrite W, Hc. }
  destruct s as [|c' s]; [now constructor|].
  destruct (WordCount.word_char c'); [|now constructor].
  destruct (WordCount.findall (String c' s)) as [|w ws]; [now constructor|].
  inversion IH as [|? ? [Hne Hw] Hws]; subst. constructor; [|exact Hws].
  split; [discriminate|]. cbn [WordCount.all_chars]. now rewrite W, Hc, Hw.
Qed.

Lemma lower_not_upper (s : string) :
  WordCount.all_chars
    (fun c => negb ((65 <=? code c) && (code c <=? 90))) (WordCount.lower s)
  = true.
Proof.
  induction s as [|c s IH]; [reflexivity|].
  cbn [WordCount.lower WordCount.all_chars]. rewrite IH, andb_true_r.
  destruct c as [[] [] [] [] [] [] [] []]; reflexivity.
Qed.

Lemma word_not_upper_token (c : ascii) :
  WordCount.word_char c && negb ((65 <=? code c) && (code c <=? 90)) = true ->
  WordCount.token_char c = true.
Proof.
  destruct c as [[] [] [] [] [] [] [] []]; intros H;
    try reflexivity; discriminate H.
Qed.

Lemma token_plain (c : ascii) :
  WordCount.token_char c = true ->
  isspace c = false /\ Ascii.eqb c tab = false.
Proof.
  destruct c as [[] [] [] [] [] [] [] []]; intros H;
    try discriminate H; split; reflexivity.
Qed.

Lemma token_word_readable (w : string) :
  w <> "" -> WordCount.all_chars WordCount.token_char w = true ->
  WordCount.readable w = true.
Proof.
  intros Hne H. destruct w as [|c w]; [contradiction|].
  cbn [WordCount.readable].
  assert (T : Spec.has_char tab (String c w) = false).
  { revert H. generalize (String c w). intros s.
    induction s as [|c' s IH]; [reflexivity|].
    cbn [WordCount.all_chars Spec.has_char]. intros H.
    apply andb_prop in H as [Hc Hs].
    destruct (token_plain c' Hc) as [_ ->]. now apply IH. }
  rewrite T. cbn [WordCount.all_chars] in H. apply andb_prop in H as [Hc _].
  now destruct (token_plain c Hc) as [-> _].
Qed.

Lemma words_are_tokens (input : list string) :
  Forall (fun w => w <> ""
                   /\ WordCount.all_chars WordCount.token_char w = true)
         (WordCount.words input).
Proof.
  unfold WordCount.words. induction input as [|raw input IH]; [constructor|].
  cbn [flat_map]. apply Forall_app. split; [|exact IH].
  pose proof (findall_words _ _ (lower_not_upper (strip raw))) as H.
  revert H. apply Forall_impl. intros w [Hne Hw]. split; [exact Hne|].
  revert Hw. apply all_chars_impl. apply word_not_upper_token.
Qed.

Lemma wc_mapper_body (raw : string) :
  WordCount.Mapper.body raw
  = map WordCount.Mapper.emit (WordCount.findall (WordCount.lower (strip raw))).
Proof.
  unfold WordCount.Mapper.body.
  destruct (String.eqb_spec (WordCount.lower (strip raw)) "") as [->|];
    reflexivity.
Qed.

Lemma wc_mapper_words (input : list string) :
  WordCount.Mapper.mapper input
  = map WordCount.Mapper.emit (WordCount.words input).
Proof.
  unfold WordCount.words. induction input as [|raw input IH]; [reflexivity|].
  cbn [WordCount.Mapper.mapper flat_map].
  now rewrite map_app, IH, wc_mapper_body.
Qed.

Lemma emit_is_line (w : string) :
  WordCount.Mapper.emit w = WordCount.line_of (w, 1).
Proof. reflexivity. Qed.

Lemma wc_parse_all_emitted (ws : list string) :
  Forall (fun w => w <> ""
                   /\ WordCount.all_chars WordCount.token_char w = true) ws ->
  WordCount.parse_all (map WordCount.Mapper.emit ws)
  = map (fun w => (w, 1)) ws.
Proof.
  intros H.
  rewrite (map_ext WordCount.Mapper.emit
             (fun w => WordCount.line_of (w, 1)) emit_is_line).
  rewrite <- (map_map (fun w => (w, 1)) WordCount.line_of).
  apply wc_parse_all_lines.
  apply Forall_map. revert H. apply Forall_impl.
  intros w [Hne Hw]. now apply token_word_readable.
Qed.

(** *** Case *)

Lemma isspace_lower (c : ascii) : isspace (WordCount.lower_char c) = isspace c.
Proof. destruct c as [[] [] [] [] [] [] [] []]; reflexivity. Qed.

Lemma lower_lstrip (s : string) :
  WordCount.lower (lstrip_by isspace s)
  = lstrip_by isspace (WordCount.lower s).
Proof.
  induction s as [|c s IH]; [reflexivity|].
  cbn [lstrip_by WordCount.lower]. rewrite isspace_lower.
  destruct (isspace c); [exact IH|reflexivity].
Qed.

Lemma lower_rstrip (s : string) :
  WordCount.lower (rstrip_by isspace s)
  = rstrip_by isspace (WordCount.lower s).
Proof.
  induction s as [|c s IH]; [reflexivity|].
  cbn [rstrip_by WordCount.lower]. rewrite <- IH, isspace_lower.
  destruct (rstrip_by isspace s); [|reflexivity].
  cbn [WordCount.lower]. now destruct (isspace c).
Qed.

Lemma lower_strip (s : string) :
  WordCount.lower (strip s) = strip (WordCount.lower s).
Proof. unfold strip. now rewrite lower_rstrip, lower_lstrip. Qed.

(** *** Counting *)

Lemma total_ones (w : string) (ws : list string) :
  WordCount.total w (map (fun x => (x, 1)) ws)
  = Z.of_nat (count_occ string_dec ws w).
Proof.
  induction ws as [|x ws IH]; [reflexivity|].
  cbn [map WordCount.total count_occ]. rewrite IH.
  destruct (string_dec x w) as [->|N].
  - rewrite String.eqb_refl. lia.
  - destruct (String.eqb_spec w x); [congruence|lia].
Qed.

Lemma total_absent (w : string) (rs : list (string * Z)) :
  ~ In w (map fst rs) -> WordCount.total w rs = 0.
Proof.
  induction rs as [|[w' n] rs IH]; [reflexivity|].
  cbn [map fst In WordCount.total]. intros H.
  destruct (String.eqb_spec w w') as [->|]; [tauto|].
  rewrite IH; tauto.
Qed.

Lemma total_unique (w : string) (n : Z) (rs : list (string * Z)) :
  NoDup (map fst rs) -> In (w, n) rs -> WordCount.total w rs = n.
Proof.
  induction rs as [|[w' n'] rs IH]; [contradiction|].
  cbn [map fst WordCount.total]. intros D [E|HIn].
  - injection E as -> ->. rewrite String.eqb_refl.
    inversion D; subst. rewrite total_absent by assumption. lia.
  - inversion D as [|? ? Hn D']; subst.
    destruct (String.eqb_spec w w') as [->|].
    + exfalso. apply Hn. apply in_map_iff. now exists (w', n).
    + rewrite IH by assumption. lia.
Qed.

(** *** Properties of the word count *)

(** X1: the word-count reducer prints one line per maximal run of equal
    words among the lines it accepts, with the sum of the run's counts;
    two neighbouring lines never carry the same word, and the counts
    printed for a word add up to the counts read for it. *)
Theorem wc_reducer_prints_run_totals (input : list string) :
  WordCount.Reducer.reducer input
  = map WordCount.line_of (WordCount.compress (WordCount.parse_all input))
  /\ (forall gs1 a b gs2,
        WordCount.compress (WordCount.parse_all input)
        = (gs1 ++ a :: b :: gs2)%list ->
        fst a <> fst b)
  /\ (forall w,
        WordCount.total w (WordCount.compress (WordCount.parse_all input))
        = WordCount.total w (WordCount.parse_all input)).
Proof.
  split; [apply wc_reducer_parsed|]. split.
  - intros gs1 a b gs2 E Q.
    pose proof (compress_neighbours _ _ _ _ _ E) as N.
    rewrite Q, String.eqb_refl in N. discriminate.
  - intros w. apply total_compress.
Qed.



(** X3: the word-count reducer can be run on its own output: reducing
    the outputs of two runs placed one after the other gives what one
    run over both inputs gives, and reducing an output again changes
    nothing. *)
Theorem wc_reducer_is_a_combiner (a b : list string) :
  WordCount.Reducer.reducer
    (WordCount.Reducer.reducer a ++ WordCount.Reducer.reducer b)
  = WordCount.Reducer.reducer (a ++ b)
  /\ WordCount.Reducer.reducer (WordCount.Reducer.reducer a)
     = WordCount.Reducer.reducer a.
Proof.
  assert (R : forall x,
             WordCount.parse_all (WordCount.Reducer.reducer x)
             = WordCount.compress (WordCount.parse_all x)).
  { intros x. rewrite wc_reducer_parsed. apply wc_parse_all_lines.
    apply compress_readable, wc_parse_all_readable. }
  split.
  - rewrite (wc_reducer_parsed (_ ++ _)), wc_parse_all_app, !R.
    rewrite compress_merge, <- wc_parse_all_app. symmetry.
    apply wc_reducer_parsed.
  - rewrite (wc_reducer_parsed (WordCount.Reducer.reducer a)), R.
    rewrite compress_idempotent. symmetry. apply wc_reducer_parsed.
Qed.

(** X4: every line the word-count mapper prints is a word, a tab and
    the count 1; the word is not empty and is made of lower-case letters,
    digits and apostrophes only. *)
Theorem wc_mapper_emits_lowercase_tokens (input : list string) (l : string) :
  In l (WordCount.Mapper.mapper input) ->
  exists w, l = w ++ String tab "1"
            /\ w <> ""
            /\ WordCount.all_chars WordCount.token_char w = true.
Proof.
  rewrite wc_mapper_words. intros H.
  apply in_map_iff in H as (w & <- & Hw).
  pose proof (words_are_tokens input) as F. rewrite Forall_forall in F.
  destruct (F w Hw) as [Hne Ht]. now exists w.
Qed.

Lemma wc_mapper_emits_lowercase_tokens_witness :
  exists w, "cat's" ++ String tab "1" = w ++ String tab "1"
            /\ w <> ""
            /\ WordCount.all_chars WordCount.token_char w = true.
Proof.
  apply (wc_mapper_emits_lowercase_tokens ["The CAT'S hat."]).
  vm_compute. auto.
Defined.

(** X5: the word-count mapper does not see case: two lines that are
    equal once lower-cased print the same, and so do two inputs whose
    lines are. *)
Theorem wc_mapper_ignores_case (a b : string) (xs ys : list string) :
  WordCount.lower a = WordCount.lower b ->
  map WordCount.lower xs = map WordCount.lower ys ->
  WordCount.Mapper.body a = WordCount.Mapper.body b
  /\ WordCount.Mapper.mapper xs = WordCount.Mapper.mapper ys.
Proof.
  assert (B : forall a b, WordCount.lower a = WordCount.lower b ->
                          WordCount.Mapper.body a = WordCount.Mapper.body b).
  { intros x y E. now rewrite !wc_mapper_body, !lower_strip, E. }
  intros E L. split; [now apply B|].
  revert ys L. induction xs as [|x xs IH]; intros [|y ys] L; try discriminate.
  - reflexivity.
  - cbn [map] in L. injection L as Lx Lxs.
    cbn [WordCount.Mapper.mapper]. now rewrite (B x y Lx), (IH ys Lxs).
Qed.

Lemma wc_mapper_ignores_case_witness :
  WordCount.Mapper.body "The Cat" = WordCount.Mapper.body "tHE cAT".
Proof.
  apply (wc_mapper_ignores_case "The Cat" "tHE cAT" [] []); reflexivity.
Defined.

(** X6: mapper, any rearrangement of its lines, then reducer: the counts
    printed for a word add up to the number of times the word occurs in
    the input; when the rearrangement puts equal words next to each
    other, every word of the input gets one line, and its count is that
    number. *)
Theorem wc_counts_occurrences (input ls : list string) :
  Permutation ls (WordCount.Mapper.mapper input) ->
  exists rs,
    WordCount.Reducer.reducer ls = map WordCount.line_of rs
    /\ (forall w, In w (map fst rs) <-> In w (WordCount.words input))
    /\ (forall w, WordCount.total w rs
                  = Z.of_nat (count_occ string_dec (WordCount.words input) w))
    /\ (NoDup (map fst rs) ->
        forall w n, In (w, n) rs ->
        n = Z.of_nat (count_occ string_dec (WordCount.words input) w)).
Proof.
  rewrite wc_mapper_words. intros P.
  destruct (Permutation_map_inv _ _ P) as (ws & -> & Pw).
  assert (F : Forall (fun w => w <> ""
                 /\ WordCount.all_chars WordCount.token_char w = true) ws).
  { eapply Permutation_Forall; [exact Pw|apply words_are_tokens]. }
  exists (WordCount.compress (map (fun w => (w, 1)) ws)).
  assert (T : forall w,
             WordCount.total w (WordCount.compress (map (fun w => (w, 1)) ws))
             = Z.of_nat (count_occ string_dec (WordCount.words input) w)).
  { intros w. rewrite total_compress, total_ones. f_equal.
    symmetry. now apply Permutation_count_occ. }
  split; [|split; [|split]].
  - now rewrite wc_reducer_parsed, (wc_parse_all_emitted ws F).
  - intros w. rewrite compress_words, map_map. cbn [fst]. rewrite map_id.
    split; intros H; [now apply (Permutation_in _ (Permutation_sym Pw))
                     |now apply (Permutation_in _ Pw)].
  - exact T.
  - intros D w n HIn. rewrite <- T. symmetry. now apply total_unique.
Qed.

Lemma wc_counts_occurrences_witness :
  exists rs,
    WordCount.Reducer.reducer
      ["a" ++ String tab "1"; "a" ++ String tab "1"; "b" ++ String tab "1"]
    = map WordCount.line_of rs
    /\ (forall w, In w (map fst rs) <-> In w (WordCount.words ["A b"; "a"]))
    /\ (forall w, WordCount.total w rs
                  = Z.of_nat (count_occ string_dec (WordCount.words ["A b"; "a"]) w))
    /\ (NoDup (map fst rs) ->
        forall w n, In (w, n) rs ->
        n = Z.of_nat (count_occ string_dec (WordCount.words ["A b"; "a"]) w)).
Proof.
  apply (wc_counts_occurrences ["A b"; "a"]).
  change (WordCount.Mapper.mapper ["A b"; "a"])
    with ["a" ++ String tab "1"; "b" ++ String tab "1"; "a" ++ String tab "1"].
  apply perm_skip, perm_swap.
Defined.

(** *** More on the key expander *)

Lemma mapper_run_printed (MAX_I MAX_K : Z) (input : list string) :
  forall P,
  Mapper.run MAX_I MAX_K P input
  = {| stdout := (P ++ stdout (Mapper.run MAX_I MAX_K [] input))%list;
       crashed := crashed (Mapper.run MAX_I MAX_K [] input) |}.
Proof.
  induction input as [|raw input IH]; intros P; cbn [Mapper.run].
  - cbn. now rewrite app_nil_r.
  - destruct (Mapper.body MAX_I MAX_K raw) as [out|].
    + rewrite (IH (P ++ out)%list), (IH ([] ++ out)%list). cbn [stdout crashed app].
      now rewrite app_assoc.
    + cbn. now rewrite app_nil_r.
Qed.

Lemma mapper_run_app (MAX_I MAX_K : Z) (a b : list string) :
  forall P,
  Mapper.run MAX_I MAX_K P (a ++ b)
  = if crashed (Mapper.run MAX_I MAX_K P a) then Mapper.run MAX_I MAX_K P a
    else Mapper.run MAX_I MAX_K (stdout (Mapper.run MAX_I MAX_K P a)) b.
Proof.
  induction a as [|raw a IH]; intros P; cbn [app Mapper.run].
  - reflexivity.
  - destruct (Mapper.body MAX_I MAX_K raw) as [out|]; [apply IH|reflexivity].
Qed.

(** X7: the key expander keeps nothing from one line to the next: a run
    over two inputs placed one after the other prints what two separate
    runs print, one after the other, unless the first run ends with an
    exception, in which case the second input is never read. *)
Theorem mapper_runs_compose (MAX_I MAX_K : Z) (a b : list string) :
  Mapper.mapper MAX_I MAX_K (a ++ b)
  = if crashed (Mapper.mapper MAX_I MAX_K a) then Mapper.mapper MAX_I MAX_K a
    else {| stdout := (stdout (Mapper.mapper MAX_I MAX_K a)
                         ++ stdout (Mapper.mapper MAX_I MAX_K b))%list;
            crashed := crashed (Mapper.mapper MAX_I MAX_K b) |}.
Proof.
  unfold Mapper.mapper. rewrite mapper_run_app.
  destruct (crashed (Mapper.run MAX_I MAX_K [] a)); [reflexivity|].
  apply mapper_run_printed.
Qed.




Lemma mapper_run_includes (MAX_I MAX_K : Z) (input : list string) :
  forall P raw out,
  crashed (Mapper.run MAX_I MAX_K P input) = false ->
  In raw input -> Mapper.body MAX_I MAX_K raw = Ok out ->
  incl out (stdout (Mapper.run MAX_I MAX_K P input)).
Proof.
  induction input as [|x input IH]; intros P raw out Hc HIn Hb; [contradiction|].
  cbn [Mapper.run] in *.
  destruct (Mapper.body MAX_I MAX_K x) as [o|] eqn:B; [|discriminate].
  destruct HIn as [->|HIn].
  - rewrite Hb in B. injection B as <-.
    rewrite mapper_run_printed. cbn [stdout].
    intros l Hl. apply in_or_app. left. apply in_or_app. now right.
  - now apply (IH _ raw out).
Qed.

(** X9: the join works: in a run of the key expander that ends normally,
    an A entry of row [i] and a B entry of column [k] anywhere in the
    input both leave a record under the key [(i, k)], provided [i] is a
    row and [k] a column of the declared dimensions, whatever their
    inner indices; and a B entry prints records for the rows
    [0 .. MAX_I - 1] only. *)
Theorem mapper_joins_rows_and_columns
  (MAX_I MAX_K : Z) (input : list string)
  (rawA nameA rA cA vA rawB nameB rB cB vB : string)
  (i j j' k : Z) (a b : float) :
  crashed (Mapper.mapper MAX_I MAX_K input) = false ->
  In rawA input -> In rawB input ->
  split "," (strip rawA) = [nameA; rA; cA; vA] -> upper nameA = "A" ->
  to_int rA = Some i -> to_int cA = Some j -> to_float vA = Some a ->
  split "," (strip rawB) = [nameB; rB; cB; vB] -> upper nameB = "B" ->
  to_int rB = Some j' -> to_int cB = Some k -> to_float vB = Some b ->
  0 <= i < MAX_I -> 0 <= k < MAX_K ->
  In (Spec.render ({| Spec.key_i := i; Spec.key_k := k |},
                   {| Spec.frag_source := Spec.SrcA;
                      Spec.innerIndex := j; Spec.value := a |}))
     (stdout (Mapper.mapper MAX_I MAX_K input))
  /\ In (Spec.render ({| Spec.key_i := i; Spec.key_k := k |},
                      {| Spec.frag_source := Spec.SrcB;
                         Spec.innerIndex := j'; Spec.value := b |}))
        (stdout (Mapper.mapper MAX_I MAX_K input))
  /\ (forall out l, Mapper.body MAX_I MAX_K rawB = Ok out -> In l out ->
        exists i', 0 <= i' < MAX_I
                   /\ l = Spec.render ({| Spec.key_i := i'; Spec.key_k := k |},
                                       {| Spec.frag_source := Spec.SrcB;
                                          Spec.innerIndex := j'; Spec.value := b |})).
Proof.
  intros Hc HA HB SA NA RA CA VA SB NB RB CB VB Hi Hk.
  pose proof (mapper_body_entry MAX_I MAX_K _ _ _ _ _ _ _ _ SA RA CA VA (or_introl NA)) as BA.
  pose proof (mapper_body_entry MAX_I MAX_K _ _ _ _ _ _ _ _ SB RB CB VB (or_intror NB)) as BB.
  rewrite NA in BA. rewrite NB in BB. cbn in BA, BB.
  split; [|split].
  - apply (mapper_run_includes _ _ _ _ _ _ Hc HA BA).
    rewrite <- line_A_render. apply in_map.
    apply (nth_error_In _ (Z.to_nat k)). apply range_nth. lia.
  - apply (mapper_run_includes _ _ _ _ _ _ Hc HB BB).
    rewrite <- line_B_render. apply in_map.
    apply (nth_error_In _ (Z.to_nat i)). apply range_nth. lia.
  - intros out l Ho Hl. rewrite BB in Ho. injection Ho as <-.
    apply in_map_iff in Hl as (i' & <- & Hi').
    exists i'. split; [|apply line_B_render].
    unfold range in Hi'. apply in_map_iff in Hi' as (n & <- & Hn).
    apply in_seq in Hn. lia.
Qed.

Lemma mapper_joins_rows_and_columns_witness :
  In (Spec.render ({| Spec.key_i := 1; Spec.key_k := 0 |},
                   {| Spec.frag_source := Spec.SrcA;
                      Spec.innerIndex := 5; Spec.value := 2%float |}))
     (stdout (Mapper.mapper 2 2 ["a,1,5,2"; "# note"; "B,7,0,3"])).
Proof.
  apply (mapper_joins_rows_and_columns 2 2 ["a,1,5,2"; "# note"; "B,7,0,3"]
           "a,1,5,2" "a" "1" "5" "2" "B,7,0,3" "B" "7" "0" "3"
           1 5 7 0 2%float 3%float);
    try reflexivity; try lia; cbn; auto.
Defined.

(** *** What the expander prints, read by the joiner *)

Lemma append_assoc' (a b c : string) : (a ++ b) ++ c = a ++ (b ++ c).
Proof. induction a as [|x a IH]; [reflexivity|]. cbn. now rewrite IH. Qed.

Lemma str_chars (n : Z) :
  WordCount.all_chars (fun c => isdigit c || Ascii.eqb c "-") (str n) = true.
Proof.
  assert (D : forall d, WordCount.all_chars (fun c => isdigit c || Ascii.eqb c "-")
                          (NilEmpty.string_of_uint d) = true).
  { intros d. generalize (uint_all_digits d). apply all_chars_impl.
    intros c ->. reflexivity. }
  destruct n as [|p|p].
  - reflexivity.
  - rewrite str_pos. apply D.
  - rewrite str_neg. cbn [WordCount.all_chars]. now rewrite D.
Qed.

Lemma digit_or_minus_plain (c : ascii) :
  isdigit c || Ascii.eqb c "-" = true ->
  negb (isspace c) = true /\ Ascii.eqb c "," = false /\ Ascii.eqb c tab = false.
Proof.
  destruct c as [[] [] [] [] [] [] [] []]; intros H;
    try discriminate H; repeat split; reflexivity.
Qed.

Lemma all_chars_has_char (p : ascii -> bool) (x : ascii) (s : string) :
  (forall c, p c = true -> Ascii.eqb c x = false) ->
  WordCount.all_chars p s = true -> Spec.has_char x s = false.
Proof.
  intros Hp. induction s as [|c s IH]; [reflexivity|].
  cbn [WordCount.all_chars Spec.has_char]. intros H.
  apply andb_prop in H as [Hc Hs]. now rewrite (Hp c Hc), IH.
Qed.

Lemma str_no_comma (n : Z) : Spec.has_char "," (str n) = false.
Proof.
  apply (all_chars_has_char _ _ _ (fun c H => proj1 (proj2 (digit_or_minus_plain c H)))).
  apply str_chars.
Qed.

Lemma str_no_tab (n : Z) : Spec.has_char tab (str n) = false.
Proof.
  apply (all_chars_has_char _ _ _ (fun c H => proj2 (proj2 (digit_or_minus_plain c H)))).
  apply str_chars.
Qed.

Lemma has_char_app (x : ascii) (a b : string) :
  Spec.has_char x (a ++ b) = Spec.has_char x a || Spec.has_char x b.
Proof.
  induction a as [|c a IH]; [reflexivity|].
  cbn [append Spec.has_char]. now rewrite IH, orb_assoc.
Qed.

Lemma split_app (sep : ascii) (a b : string) :
  Spec.has_char sep a = false ->
  split sep (a ++ String sep b) = a :: split sep b.
Proof.
  induction a as [|c a IH]; intros H.
  - cbn. now rewrite Ascii.eqb_refl.
  - cbn in H. apply orb_false_elim in H as [Hc Ha].
    cbn [append split]. now rewrite Hc, (IH Ha).
Qed.

Lemma zeros_tight (n : nat) :
  WordCount.all_chars (fun c => negb (isspace c)) (zeros n) = true.
Proof. induction n; [reflexivity|]. cbn. exact IHn. Qed.

Lemma substring_tight (p : ascii -> bool) (s : string) :
  forall n m, WordCount.all_chars p s = true ->
  WordCount.all_chars p (substring n m s) = true.
Proof.
  induction s as [|c s IH]; intros n m H.
  - now destruct n, m.
  - cbn [WordCount.all_chars] in H. apply andb_prop in H as [Hc Hs].
    destruct n as [|n]; cbn [substring].
    + destruct m as [|m]; [reflexivity|].
      cbn [WordCount.all_chars]. now rewrite Hc, IH.
    + now apply IH.
Qed.

Lemma layout_tight (ds : string) (decpt : Z) :
  WordCount.all_chars (fun c => negb (isspace c)) ds = true ->
  WordCount.all_chars (fun c => negb (isspace c)) (layout ds decpt) = true.
Proof.
  intros H. unfold layout.
  assert (S : forall n, WordCount.all_chars (fun c => negb (isspace c)) (str n) = true).
  { intros n. apply str_tight. }
  destruct ((decpt <=? -4) || (16 <? decpt)).
  - rewrite !all_chars_app, S.
    assert (M : WordCount.all_chars (fun c => negb (isspace c))
                  match ds with
                  | String c EmptyString => ds
                  | String c rest => String c (String "." rest)
                  | EmptyString => ds
                  end = true).
    { destruct ds as [|c [|c' r]]; exact H. }
    rewrite M. now destruct (decpt - 1 <? 0), (Z.abs (decpt - 1) <? 10).
  - destruct (decpt <=? 0).
    + change ("0." ++ zeros (Z.to_nat (- decpt)) ++ ds)
        with (String "0" (String "." (zeros (Z.to_nat (- decpt)) ++ ds))).
      cbn [WordCount.all_chars]. rewrite all_chars_app, zeros_tight, H.
      reflexivity.
    + destruct (decpt <? Z.of_nat (String.length ds)).
      * rewrite !all_chars_app, !substring_tight by exact H. reflexivity.
      * rewrite !all_chars_app, zeros_tight, H. reflexivity.
Qed.

Lemma repr_tight (v : float) :
  WordCount.all_chars (fun c => negb (isspace c)) (repr v) = true.
Proof.
  unfold repr. destruct (Prim2SF v) as [[]|[]| |s m e]; try reflexivity.
  unfold repr_sf.
  destruct (shortest 16 1 m e (floor_log10 m e)) as [c0 q0].
  destruct (drop_zeros 17 c0 q0) as [c q].
  rewrite all_chars_app, layout_tight by apply str_tight.
  now destruct s.
Qed.

Lemma rstrip_by_cons (sp : ascii -> bool) (c : ascii) (b : string) :
  b <> "" -> rstrip_by sp b = b -> rstrip_by sp (String c b) = String c b.
Proof. intros Hne Hb. now apply (rstrip_by_app sp (String c "") b). Qed.

Lemma strip_record (key payload : string) :
  key <> "" ->
  match key with String c _ => isspace c = false | EmptyString => True end ->
  payload <> "" ->
  WordCount.all_chars (fun c => negb (isspace c)) payload = true ->
  strip (key ++ String tab payload) = key ++ String tab payload.
Proof.
  intros Hne Hc Hp Tp. unfold strip.
  destruct key as [|c key]; [contradiction|].
  cbn [append]. rewrite (lstrip_by_head isspace c _ Hc).
  apply (rstrip_by_app isspace (String c key) (String tab payload));
    [discriminate|].
  apply rstrip_by_cons; [exact Hp|]. now apply rstrip_by_tight.
Qed.

Lemma str_head (n : Z) :
  exists c r, str n = String c r /\ isspace c = false.
Proof.
  destruct (str_tight n) as [Hne T].
  destruct (str n) as [|c r]; [contradiction|].
  cbn [WordCount.all_chars] in T. apply andb_prop in T as [Hc _].
  apply negb_true_iff in Hc. eauto.
Qed.

Lemma body_printed_record
  (st : Reducer.state) (i k j : Z) (tag : string) (v v' : float) :
  Spec.has_char "," tag = false ->
  WordCount.all_chars (fun c => negb (isspace c)) tag = true ->
  to_float (repr v) = Some v' ->
  Reducer.body st
    (str i ++ "," ++ str k ++ String tab (tag ++ "," ++ str j ++ "," ++ repr v))
  = Ok (Reducer.absorb st (i, k, tag, j, v')).
Proof.
  intros Hcomma Htag Hv.
  set (payload := tag ++ "," ++ str j ++ "," ++ repr v).
  set (key := str i ++ "," ++ str k).
  replace (str i ++ "," ++ str k ++ String tab payload)
    with (key ++ String tab payload)
    by (unfold key; now rewrite append_assoc').
  assert (Tp : WordCount.all_chars (fun c => negb (isspace c)) payload = true).
  { unfold payload. rewrite !all_chars_app, Htag, repr_tight.
    destruct (str_tight j) as [_ ->]. reflexivity. }
  assert (Np : payload <> "").
  { unfold payload. destruct tag; discriminate. }
  assert (Hk : Spec.has_char tab key = false).
  { unfold key. now rewrite !has_char_app, !str_no_tab. }
  assert (S : strip (key ++ String tab payload) = key ++ String tab payload).
  { destruct (str_head i) as (c & r & E & Hc).
    apply strip_record; trivial; unfold key; rewrite E; [discriminate|exact Hc]. }
  apply body_decoded.
  - rewrite S. destruct key; discriminate.
  - rewrite S, (decode_tabbed key payload Hk).
    unfold key. change ("," ++ str k) with (String "," (str k)).
    rewrite (split_app "," (str i) (str k) (str_no_comma i)).
    rewrite (split_no_sep "," (str k) (str_no_comma k)).
    cbn [map]. rewrite !to_int_str.
    unfold payload. change ("," ++ str j ++ "," ++ repr v)
      with (String "," (str j ++ String "," (repr v))).
    rewrite (split_max_app "," 1 tag _ Hcomma).
    rewrite (split_max_app "," 0 (str j) _ (str_no_comma j)), split_max_0.
    now rewrite to_int_str, Hv.
Qed.

(** X10: a record printed by the key expander is read by the joiner as
    the same key, tag and inner index, with the value its text reads
    back as: stripping leaves the line whole, the key is the two
    integers before the tab, and the payload has its three fields. *)
Theorem mapper_record_is_read_back
  (st : Reducer.state) (r c idx : Z) (v v' : float) :
  to_float (repr v) = Some v' ->
  Reducer.body st (Mapper.line_A r c v idx)
    = Ok (Reducer.absorb st (r, idx, "A", c, v'))
  /\ Reducer.body st (Mapper.line_B r c v idx)
     = Ok (Reducer.absorb st (idx, c, "B", r, v')).
Proof.
  intros Hv. split.
  - apply (body_printed_record st r idx c "A" v v'); trivial.
  - apply (body_printed_record st idx c r "B" v v'); trivial.
Qed.

Lemma mapper_record_is_read_back_witness :
  Reducer.body Reducer.initial (Mapper.line_A (-3) 12 1e22%float 7)
  = Ok (Reducer.absorb Reducer.initial (-3, 7, "A", 12, 1e22%float)).
Proof.
  apply (mapper_record_is_read_back Reducer.initial (-3) 12 7 1e22%float 1e22%float).
  vm_compute. reflexivity.
Defined.

(** *** Runs of two streams placed one after the other *)

Lemma runs_head (r : Reducer.record) (rs : list Reducer.record) :
  exists g gs, Spec.runs (r :: rs) = (Spec.key_of r, g) :: gs.
Proof.
  cbn [Spec.runs]. destruct (Spec.runs rs) as [|[key g] gs]; [eauto|].
  destruct (Spec.same_key (Spec.key_of r) key) eqn:Q; [|eauto].
  apply same_key_true in Q. subst key. eauto.
Qed.

Lemma runs_nil (rs : list Reducer.record) : Spec.runs rs = [] -> rs = [].
Proof.
  destruct rs as [|r rs]; [reflexivity|].
  destruct (runs_head r rs) as (g & gs & E). rewrite E. discriminate.
Qed.

Lemma runs_snoc_cons (ra : list Reducer.record) (x y : Reducer.record)
  (rb : list Reducer.record) :
  Spec.same_key (Spec.key_of x) (Spec.key_of y) = false ->
  Spec.runs ((ra ++ [x]) ++ y :: rb)
  = (Spec.runs (ra ++ [x]) ++ Spec.runs (y :: rb))%list.
Proof.
  intros N. induction ra as [|r ra IH].
  - destruct (runs_head y rb) as (g & gs & E).
    change (([] ++ [x]) ++ y :: rb)%list with (x :: y :: rb).
    change (Spec.runs (x :: y :: rb))
      with (match Spec.runs (y :: rb) with
            | (key, g) :: gs =>
                if Spec.same_key (Spec.key_of x) key then (key, x :: g) :: gs
                else (Spec.key_of x, [x]) :: (key, g) :: gs
            | [] => [(Spec.key_of x, [x])]
            end).
    rewrite E, N. reflexivity.
  - change (((r :: ra) ++ [x]) ++ y :: rb)%list
      with (r :: ((ra ++ [x]) ++ y :: rb))%list.
    change ((r :: ra) ++ [x])%list with (r :: (ra ++ [x]))%list.
    cbn [Spec.runs]. rewrite IH.
    destruct (Spec.runs (ra ++ [x])) as [|[key g] gs] eqn:E.
    + apply runs_nil in E. destruct ra; discriminate.
    + cbn [app]. now destruct (Spec.same_key (Spec.key_of r) key).
Qed.

(** X11: the joiner's output over two inputs placed one after the other
    is the two outputs one after the other, as soon as both decode and
    the last record of the first has another key than the first record
    of the second; the keys elsewhere play no part, so a key met again
    after another key is flushed anew. *)
Theorem reducer_runs_compose
  (a b : list string) (ra rb : list Reducer.record) (x y : Reducer.record) :
  Spec.decode_all a = Some (ra ++ [x])%list ->
  Spec.decode_all b = Some (y :: rb) ->
  Spec.same_key (Spec.key_of x) (Spec.key_of y) = false ->
  Reducer.reducer (a ++ b)
  = {| stdout := (stdout (Reducer.reducer a) ++ stdout (Reducer.reducer b))%list;
       crashed := false |}.
Proof.
  intros Da Db N.
  rewrite (reducer_decoded (a ++ b) ((ra ++ [x]) ++ y :: rb)%list)
    by (now rewrite decode_all_app, Da, Db).
  rewrite (reducer_decoded a _ Da), (reducer_decoded b _ Db).
  cbn [stdout]. unfold Spec.fold_groups.
  now rewrite (runs_snoc_cons ra x y rb N), map_app, concat_app.
Qed.

Lemma reducer_runs_compose_witness :
  Reducer.reducer
    ["0,0" ++ String tab "A,0,2"; "0,0" ++ String tab "B,0,3";
     "0,1" ++ String tab "A,0,2"; "0,0" ++ String tab "A,0,1";
     "0,0" ++ String tab "B,0,1"]
  = {| stdout :=
         app (stdout (Reducer.reducer
                        ["0,0" ++ String tab "A,0,2"; "0,0" ++ String tab "B,0,3"]))
             (stdout (Reducer.reducer
                        ["0,1" ++ String tab "A,0,2"; "0,0" ++ String tab "A,0,1";
                         "0,0" ++ String tab "B,0,1"]));
       crashed := false |}.
Proof.
  apply (reducer_runs_compose
           ["0,0" ++ String tab "A,0,2"; "0,0" ++ String tab "B,0,3"]
           ["0,1" ++ String tab "A,0,2"; "0,0" ++ String tab "A,0,1";
            "0,0" ++ String tab "B,0,1"]
           [(0, 0, "A", 0, 2%float)]
           [(0, 0, "A", 0, 1%float); (0, 0, "B", 0, 1%float)]
           (0, 0, "B", 0, 3%float) (0, 1, "A", 0, 2%float));
    vm_compute; reflexivity.
Defined.

(** *** The accumulators as dictionaries *)

Lemma contains_keys (j : Z) (d : dict) :
  contains j d = true <-> In j (map fst d).
Proof.
  induction d as [|[j' a] d IH]; cbn [contains map fst In].
  - split; [discriminate|contradiction].
  - rewrite orb_true_iff, IH, Z.eqb_eq. tauto.
Qed.

Lemma iadd_keys (d : dict) (j : Z) (v : float) :
  map fst (iadd d j v)
  = if contains j d then map fst d else (map fst d ++ [j])%list.
Proof.
  induction d as [|[j' a] d IH]; [reflexivity|].
  cbn [iadd contains]. destruct (j' =? j) eqn:E; cbn [map fst orb].
  - reflexivity.
  - rewrite IH. now destruct (contains j d).
Qed.

Lemma iadd_nodup (d : dict) (j : Z) (v : float) :
  NoDup (map fst d) -> NoDup (map fst (iadd d j v)).
Proof.
  intros H. rewrite iadd_keys. destruct (contains j d) eqn:C; [exact H|].
  apply NoDup_app; [exact H|repeat constructor; intros []|].
  intros x Hx [<-|[]]. apply contains_keys in Hx. congruence.
Qed.

Lemma getitem_entry (d : dict) (j : Z) (a : float) :
  NoDup (map fst d) -> In (j, a) d ->
  contains j d = true /\ getitem j d = a.
Proof.
  induction d as [|[j' a'] d IH]; [contradiction|].
  cbn [map fst contains getitem]. intros D [E|HIn].
  - injection E as -> ->. now rewrite Z.eqb_refl.
  - inversion D as [|? ? Hn D']; subst.
    destruct (j' =? j) eqn:E.
    + apply Z.eqb_eq in E. subst j'. exfalso. apply Hn.
      apply in_map_iff. now exists (j, a).
    + now apply IH.
Qed.

Lemma absorb_nodup (st : Reducer.state) (r : Reducer.record) :
  NoDup (map fst (Reducer.Avals st)) /\ NoDup (map fst (Reducer.Bvals st)) ->
  NoDup (map fst (Reducer.Avals (Reducer.absorb st r)))
  /\ NoDup (map fst (Reducer.Bvals (Reducer.absorb st r))).
Proof.
  destruct st as [cur A B P], r as [[[[i k] src] j] v]. intros [HA HB].
  cbn [Reducer.Avals Reducer.Bvals] in HA, HB.
  destruct (Reducer.key_eqb cur i k) eqn:K.
  - rewrite absorb_same_key by exact K. cbn [Reducer.Avals Reducer.Bvals].
    destruct (String.eqb src "A"); split; auto using iadd_nodup.
  - rewrite absorb_new_key by exact K. cbn [Reducer.Avals Reducer.Bvals].
    destruct (String.eqb src "A"); split;
      try apply iadd_nodup; constructor.
Qed.

Lemma loop_nodup (input : list string) :
  forall st,
  NoDup (map fst (Reducer.Avals st)) /\ NoDup (map fst (Reducer.Bvals st)) ->
  NoDup (map fst (Reducer.Avals (fst (Reducer.loop st input))))
  /\ NoDup (map fst (Reducer.Bvals (fst (Reducer.loop st input)))).
Proof.
  induction input as [|raw input IH]; intros st H; [exact H|].
  cbn [Reducer.loop]. unfold Reducer.body.
  destruct (String.eqb (strip raw) ""); [now apply IH|].
  destruct (Reducer.decode (strip raw)) as [r|]; [|exact H].
  apply IH. now apply absorb_nodup.
Qed.

(** X12: however far the joiner has read, and also when it stops on an
    exception, each accumulator holds an inner index at most once, and
    looking an index up gives the value stored with it. *)
Theorem reducer_accumulators_are_dictionaries (input : list string) :
  NoDup (map fst (Reducer.Avals (fst (Reducer.loop Reducer.initial input))))
  /\ NoDup (map fst (Reducer.Bvals (fst (Reducer.loop Reducer.initial input))))
  /\ (forall j a,
        In (j, a) (Reducer.Avals (fst (Reducer.loop Reducer.initial input))) ->
        contains j (Reducer.Avals (fst (Reducer.loop Reducer.initial input))) = true
        /\ getitem j (Reducer.Avals (fst (Reducer.loop Reducer.initial input))) = a)
  /\ (forall j b,
        In (j, b) (Reducer.Bvals (fst (Reducer.loop Reducer.initial input))) ->
        contains j (Reducer.Bvals (fst (Reducer.loop Reducer.initial input))) = true
        /\ getitem j (Reducer.Bvals (fst (Reducer.loop Reducer.initial input))) = b).
Proof.
  destruct (loop_nodup input Reducer.initial) as [HA HB].
  { split; constructor. }
  split; [exact HA|]. split; [exact HB|].
  split; intros j x HIn; [now apply getitem_entry|now apply getitem_entry].
Qed.

(** *** Groups fed by one matrix only *)

Lemma sum_A_none (g : list Reducer.record) :
  forall d,
  (forall i k src j v, In (i, k, src, j, v) g -> src <> "A") ->
  Spec.sum_A d g = d.
Proof.
  induction g as [|[[[[i k] src] j] v] g IH]; intros d H; [reflexivity|].
  rewrite sum_A_cons.
  destruct (String.eqb_spec src "A") as [E|_].
  - exfalso. apply (H i k src j v); [now left|exact E].
  - apply IH. intros. eapply H. right. eassumption.
Qed.

Lemma sum_B_none (g : list Reducer.record) :
  forall d,
  (forall i k src j v, In (i, k, src, j, v) g -> src = "A") ->
  Spec.sum_B d g = d.
Proof.
  induction g as [|[[[[i k] src] j] v] g IH]; intros d H; [reflexivity|].
  rewrite sum_B_cons. rewrite (H i k src j v) by now left.
  cbn. apply IH. intros. eapply H. right. eassumption.
Qed.

Lemma dot_no_B (A : dict) : Reducer.dot A [] = 0%float.
Proof.
  unfold Reducer.dot. generalize 0%float.
  induction A as [|[j a] A IH]; intros acc; [reflexivity|]. cbn. apply IH.
Qed.

Lemma runs_members (rs : list Reducer.record) key g r :
  In (key, g) (Spec.runs rs) -> In r g -> In r rs.
Proof.
  intros Hg Hr. rewrite <- (runs_concat rs). apply in_concat.
  exists g. split; [|exact Hr]. apply in_map_iff. now exists (key, g).
Qed.

Lemma concat_all_nil {A : Type} (ls : list (list A)) :
  (forall l, In l ls -> l = []) -> List.concat ls = [].
Proof.
  induction ls as [|l ls IH]; intros H; [reflexivity|].
  cbn. rewrite (H l) by now left. apply IH. intros. apply H. now right.
Qed.

(** X13: a stream that decodes and carries fragments of one matrix only
    (every tag is [A], or no tag is) makes the joiner print nothing: a
    key needs fragments of both kinds to get a line. *)
Theorem reducer_needs_both_matrices
  (input : list string) (rs : list Reducer.record) :
  Spec.decode_all input = Some rs ->
  (forall i k src j v, In (i, k, src, j, v) rs -> src = "A")
  \/ (forall i k src j v, In (i, k, src, j, v) rs -> src <> "A") ->
  Reducer.reducer input = {| stdout := []; crashed := false |}.
Proof.
  intros Hd H. rewrite (reducer_decoded input rs Hd). f_equal.
  unfold Spec.fold_groups. apply concat_all_nil.
  intros l Hl. apply in_map_iff in Hl as ([[ki kk] g] & <- & Hg).
  unfold Spec.flush_group, Reducer.flush. cbn [fst snd].
  destruct H as [H|H].
  - rewrite (sum_B_none g []), dot_no_B; [reflexivity|].
    intros i k src j v HIn. apply (H i k src j v).
    now apply (runs_members rs (ki, kk) g).
  - rewrite (sum_A_none g []); [reflexivity|].
    intros i k src j v HIn. apply (H i k src j v).
    now apply (runs_members rs (ki, kk) g).
Qed.

Lemma reducer_needs_both_matrices_witness :
  Reducer.reducer ["0,0" ++ String tab "A,0,2"; "0,1" ++ String tab "A,0,3"]
  = {| stdout := []; crashed := false |}.
Proof.
  apply (reducer_needs_both_matrices
           ["0,0" ++ String tab "A,0,2"; "0,1" ++ String tab "A,0,3"]
           [(0, 0, "A", 0, 2%float); (0, 1, "A", 0, 3%float)]).
  - vm_compute. reflexivity.
  - left. intros i k src j v [E|[E|[]]]; now injection E as _ _ <- _ _.
Defined.
